(** * Cardigan Dashboard: the shell script [shared/shell.js]

    A shallow embedding of the navigation resolver, the two-key shortcut
    listener and the accessibility-preference store and applier of
    [shared/shell.js], with the properties the specification states about
    them.

    Conventions of the embedding.

    - A JavaScript string is a [string]: the sequence of its code units.  The
      embedding covers the code units below 256 (one [ascii] each), on which
      [toLowerCase] is the Unicode lower-casing; [JSON.parse] reads the
      texts whose strings stay within them.
    - [null] and [undefined] are [None]; a value that may be [null] is an
      [option].
    - Module-level [let] variables and the parts of the browser the script
      reads or writes are fields of one record, threaded through every
      function that touches them. *)

From Stdlib Require Import String Ascii List Bool NArith ZArith Lia.
From stdpp Require Import gmap strings.
Import ListNotations.

Local Open Scope N_scope.

(** ** Strings *)

(** [String.prototype.toLowerCase] on one code unit: the capital letters
    A-Z, and the capital letters of the Latin-1 supplement (U+00C0-U+00DE
    without the multiplication sign U+00D7), move up by 32. *)
Definition lower_unit (c : ascii) : ascii :=
  let n := N_of_ascii c in
  if ((65 <=? n) && (n <=? 90)) ||
     ((192 <=? n) && (n <=? 222) && negb (n =? 215))
  then ascii_of_N (n + 32)
  else c.

Fixpoint toLowerCase (s : string) : string :=
  match s with
  | EmptyString => EmptyString
  | String c rest => String (lower_unit c) (toLowerCase rest)
  end.

(** [s.startsWith(p)]. *)
Fixpoint startsWith (s p : string) : bool :=
  match p with
  | EmptyString => true
  | String c p' =>
      match s with
      | EmptyString => false
      | String d s' => Ascii.eqb c d && startsWith s' p'
      end
  end.

(** A string in a condition: only the empty string is falsy. *)
Definition nonempty (s : string) : bool :=
  match s with
  | EmptyString => false
  | String _ _ => true
  end.

(** [s.split(' ')]: the pieces between single spaces, in order. *)
Fixpoint split_space_aux (cur : string) (s : string) : list string :=
  match s with
  | EmptyString => [cur]
  | String c rest =>
      if Ascii.eqb c " "
      then cur :: split_space_aux EmptyString rest
      else split_space_aux (cur +:+ String c EmptyString) rest
  end.

Definition split_space (s : string) : list string :=
  split_space_aux EmptyString s.

(** ** Navigation *)

Record NavItem := { nav_id : string; nav_label : string; nav_href : string }.

Definition NAV_ITEMS : list NavItem :=
  [ {| nav_id := "home"; nav_label := "Home"; nav_href := "/" |};
    {| nav_id := "example-tool"; nav_label := "Example Tool";
       nav_href := "/example-tool/" |} ].

(** [href.replace(/^\//, '')]: the pattern is anchored at the start and is
    not global, so at most the first code unit is removed. *)
Definition strip_leading_slash (href : string) : string :=
  match href with
  | String c rest => if Ascii.eqb c "/" then rest else href
  | EmptyString => href
  end.

(** ** Shortcuts *)

Inductive Action :=
| NavigateTo (id : string)     (* () => navigateTo(id) *)
| ToggleShortcutsModal.        (* () => toggleShortcutsModal() *)

Record Shortcut := { keys : string; label : string; action : Action }.

Definition SHORTCUTS : list Shortcut :=
  [ {| keys := "g h"; label := "Go to Home"; action := NavigateTo "home" |};
    {| keys := "g e"; label := "Go to Example Tool";
       action := NavigateTo "example-tool" |};
    {| keys := "?"; label := "Show keyboard shortcuts";
       action := ToggleShortcutsModal |} ].

(** The key tokens of an entry, as the shortcuts dialog lists them
    ([s.keys.split(' ')]). *)
Definition sequence (s : Shortcut) : list string := split_space (keys s).

(** ** The page *)

(** What [isInputFocused] reads of [document.activeElement]. *)
Record Element := { tagName : string; isContentEditable : bool }.

(** What the listener can read of a [keydown] event.  The listener reads
    [key], [ctrlKey], [metaKey] and [altKey]; [shiftKey] is there, as on
    every keyboard event, and never read. *)
Record KeyboardEvent := {
  key : string;
  ctrlKey : bool;
  metaKey : bool;
  altKey : bool;
  shiftKey : bool;
}.

(** The module variables of the sequence handler and the parts of the
    browser it works on.  Every pending timeout of the script has the same
    callback, [() => { pendingKey = null; }], so a timeout is its handle and
    the time it is due. *)
Record Page := {
  pendingKey : option string;        (* let pendingKey = null *)
  pendingTimer : option nat;         (* let pendingTimer = null *)
  timeouts : list (nat * N);         (* handle, due time in ms *)
  nextHandle : nat;                  (* the handle setTimeout returns next *)
  clock : N;                         (* current time in ms *)
  activeElement : option Element;    (* document.activeElement *)
  dialogOpen : option bool;          (* #shell-shortcuts-dialog: its [open], if it exists *)
  location_href : string;            (* window.location.href *)
}.

Definition isInputFocused (p : Page) : bool :=
  match activeElement p with
  | None => false
  | Some el =>
      let tag := toLowerCase (tagName el) in
      if String.eqb tag "input" || String.eqb tag "textarea"
         || String.eqb tag "select"
      then true
      else if isContentEditable el then true
      else false
  end.

(** [clearTimeout(h)]: the timeout with that handle, if any, is dropped;
    [null] and stale handles name none. *)
Definition clearTimeout (h : option nat) (p : Page) : Page :=
  match h with
  | None => p
  | Some h =>
      {| pendingKey := pendingKey p; pendingTimer := pendingTimer p;
         timeouts := List.filter (fun t => negb (Nat.eqb (fst t) h)) (timeouts p);
         nextHandle := nextHandle p; clock := clock p;
         activeElement := activeElement p; dialogOpen := dialogOpen p;
         location_href := location_href p |}
  end.

(** [setTimeout(() => { pendingKey = null; }, delay)]: a new timeout, due
    [delay] ms from now; its handle is returned. *)
Definition setTimeout (delay : N) (p : Page) : nat * Page :=
  (nextHandle p,
   {| pendingKey := pendingKey p; pendingTimer := pendingTimer p;
      timeouts := timeouts p ++ [(nextHandle p, clock p + delay)];
      nextHandle := S (nextHandle p); clock := clock p;
      activeElement := activeElement p; dialogOpen := dialogOpen p;
      location_href := location_href p |}).

Definition set_pendingKey (k : option string) (p : Page) : Page :=
  {| pendingKey := k; pendingTimer := pendingTimer p;
     timeouts := timeouts p; nextHandle := nextHandle p; clock := clock p;
     activeElement := activeElement p; dialogOpen := dialogOpen p;
     location_href := location_href p |}.

Definition set_pendingTimer (h : option nat) (p : Page) : Page :=
  {| pendingKey := pendingKey p; pendingTimer := h;
     timeouts := timeouts p; nextHandle := nextHandle p; clock := clock p;
     activeElement := activeElement p; dialogOpen := dialogOpen p;
     location_href := location_href p |}.

Definition set_location_href (u : string) (p : Page) : Page :=
  {| pendingKey := pendingKey p; pendingTimer := pendingTimer p;
     timeouts := timeouts p; nextHandle := nextHandle p; clock := clock p;
     activeElement := activeElement p; dialogOpen := dialogOpen p;
     location_href := u |}.

Definition set_dialogOpen (o : option bool) (p : Page) : Page :=
  {| pendingKey := pendingKey p; pendingTimer := pendingTimer p;
     timeouts := timeouts p; nextHandle := nextHandle p; clock := clock p;
     activeElement := activeElement p; dialogOpen := o;
     location_href := location_href p |}.

Definition set_activeElement (el : option Element) (p : Page) : Page :=
  {| pendingKey := pendingKey p; pendingTimer := pendingTimer p;
     timeouts := timeouts p; nextHandle := nextHandle p; clock := clock p;
     activeElement := el; dialogOpen := dialogOpen p;
     location_href := location_href p |}.

(** [toggleShortcutsModal]: nothing without the dialog; otherwise
    [dialog.close()] when open and [dialog.showModal()] when closed. *)
Definition toggleShortcutsModal (p : Page) : Page :=
  match dialogOpen p with
  | None => p
  | Some is_open => set_dialogOpen (Some (negb is_open)) p
  end.

(** What a listener call does that its caller can see. *)
Inductive Effect :=
| PreventDefault               (* e.preventDefault() *)
| Invoke (s : Shortcut).       (* s.action() *)

Section Shell.

(** [SITE_ROOT = new URL('..', import.meta.url).href]: fixed when the module
    is loaded. *)
Variable SITE_ROOT : string.

Definition resolveHref (href : string) : string :=
  if String.eqb href "/" then SITE_ROOT
  else SITE_ROOT +:+ strip_leading_slash href.

Definition navigateTo (id : string) (p : Page) : Page :=
  match List.find (fun n => String.eqb (nav_id n) id) NAV_ITEMS with
  | None => p
  | Some item => set_location_href (resolveHref (nav_href item)) p
  end.

Definition run_action (a : Action) (p : Page) : Page :=
  match a with
  | NavigateTo id => navigateTo id p
  | ToggleShortcutsModal => toggleShortcutsModal p
  end.

(** [SHORTCUTS.find(s => s.keys === seq)]. *)
Definition find_shortcut (seq : string) : option Shortcut :=
  List.find (fun s => String.eqb (keys s) seq) SHORTCUTS.

(** [SHORTCUTS.some(s => s.keys.startsWith(key + ' '))]. *)
Definition couldBePrefix (k : string) : bool :=
  List.existsb (fun s => startsWith (keys s) (k +:+ " ")) SHORTCUTS.

(** The listener from [const single = ...] to its end: the key on its own. *)
Definition single_key (k : string) (p : Page) : Page * list Effect :=
  match find_shortcut k with
  | Some single => (run_action (action single) p, [PreventDefault; Invoke single])
  | None =>
      if couldBePrefix k then
        let p1 := set_pendingKey (Some k) p in
        let '(h, p2) := setTimeout 800 p1 in
        (set_pendingTimer (Some h) p2, [])
      else (p, [])
  end.

(** The [keydown] listener of the document. *)
Definition onKeydown (e : KeyboardEvent) (p : Page) : Page * list Effect :=
  if isInputFocused p then (p, [])
  else if ctrlKey e || metaKey e || altKey e then (p, [])
  else
    let k := toLowerCase (key e) in
    match pendingKey p with
    | Some pk =>
        if nonempty pk then
          let combo := pk +:+ " " +:+ k in
          let p1 := set_pendingKey None (clearTimeout (pendingTimer p) p) in
          match find_shortcut combo with
          | Some shortcut =>
              (run_action (action shortcut) p1, [PreventDefault; Invoke shortcut])
          | None => single_key k p1
          end
        else single_key k p
    | None => single_key k p
    end.

(** Time passes: the clock moves on by [d] ms, and every timeout due by
    then runs its callback, [pendingKey = null], and is gone. *)
Definition due (now : N) (t : nat * N) : bool := snd t <=? now.

Definition elapse (d : N) (p : Page) : Page :=
  let now := clock p + d in
  {| pendingKey :=
       if List.existsb (due now) (timeouts p) then None else pendingKey p;
     pendingTimer := pendingTimer p;
     timeouts := List.filter (fun t => negb (due now t)) (timeouts p);
     nextHandle := nextHandle p; clock := now;
     activeElement := activeElement p; dialogOpen := dialogOpen p;
     location_href := location_href p |}.

(** What happens to a page: a key goes down, time passes, the focus moves. *)
Inductive Input :=
| Keydown (e : KeyboardEvent)
| Elapse (d : N)
| Focus (el : option Element).

Definition step (i : Input) (p : Page) : Page * list Effect :=
  match i with
  | Keydown e => onKeydown e p
  | Elapse d => (elapse d p, [])
  | Focus el => (set_activeElement el p, [])
  end.

Fixpoint run (inputs : list Input) (p : Page) : Page * list Effect :=
  match inputs with
  | [] => (p, [])
  | i :: rest =>
      let '(p1, t1) := step i p in
      let '(p2, t2) := run rest p1 in
      (p2, t1 ++ t2)
  end.

End Shell.

(** ** Calls that may throw *)

Inductive Exception :=
| SyntaxError
| SecurityError
| TypeError
| QuotaExceededError.

(** What a call comes to: a value, or an exception. *)
Inductive Completion (A : Type) :=
| Return (a : A)
| Throw (e : Exception).
Arguments Return {A} a.
Arguments Throw {A} e.

Definition bind {A B : Type} (c : Completion A) (k : A -> Completion B)
    : Completion B :=
  match c with
  | Return a => k a
  | Throw e => Throw e
  end.

(** [try { body } catch { handler }]. *)
Definition try_catch {A : Type} (body : Completion A) (handler : Completion A)
    : Completion A :=
  match body with
  | Return a => Return a
  | Throw _ => handler
  end.

Notation "'let!' x ':=' c 'in' k" := (bind c (fun x => k))
  (at level 10, x name, c at level 100, k at level 200).

(** ** Calls that write and may throw *)

(** A call that works on a state: the state it leaves, and how it ended.
    What a call wrote before it threw stays written. *)
Definition Stateful (S A : Type) : Type := S -> S * Completion A.

Definition and_then {S A B : Type} (c : Stateful S A) (k : A -> Stateful S B)
    : Stateful S B :=
  fun st =>
    match c st with
    | (st1, Return a) => k a st1
    | (st1, Throw e) => (st1, Throw e)
    end.

(** A call that writes nothing. *)
Definition computing {S A : Type} (c : Completion A) : Stateful S A :=
  fun st => (st, c).

(** A write that cannot throw. *)
Definition writing {S : Type} (f : S -> S) : Stateful S unit :=
  fun st => (f st, Return tt).

Notation "'do!' x ':=' c 'in' k" := (and_then c (fun x => k))
  (at level 10, x name, c at level 100, k at level 200).

(** What a call returned, for a caller that goes on only when it did. *)
Definition returned {S A : Type} (r : S * Completion A) : Completion S :=
  match r with
  | (st, Return _) => Return st
  | (_, Throw e) => Throw e
  end.

(** ** JSON *)

Module JSON.

(** A number, kept as the decimal its text denotes,
    [(-1)^negative * mantissa * 10^exponent]; JavaScript holds the binary64
    value nearest to it. *)
Record Number := { negative : bool; mantissa : N; exponent : Z }.

#[local] Set Warnings "-register-all".

(** The values [JSON.parse] builds.  The properties of an object are in
    the order in which the object lists its own keys. *)
Inductive Value :=
| Null
| Bool (b : bool)
| Num (n : Number)
| Str (s : string)
| Arr (items : list Value)
| Obj (props : list (string * Value)).

(** The nearest binary64 value is a zero: the decimal is at most half the
    least subnormal, [2^-1075] (a tie goes to the even significand, 0). *)
Definition rounds_to_zero (n : Number) : bool :=
  (mantissa n =? 0) ||
  ((exponent n <? 0)%Z &&
   (mantissa n * 2 ^ 1075 <=? 10 ^ Z.to_N (- exponent n))).

(** The nearest binary64 value is finite: the decimal is below
    [2^1024 - 2^970], half-way from the largest finite value to [2^1024]. *)
Definition is_finite (n : Number) : bool :=
  let bound := 2 ^ 1024 - 2 ^ 970 in
  if (exponent n <? 0)%Z
  then mantissa n <? bound * 10 ^ Z.to_N (- exponent n)
  else mantissa n * 10 ^ Z.to_N (exponent n) <? bound.

(** A value in a condition. *)
Definition truthy (v : Value) : bool :=
  match v with
  | Null => false
  | Bool b => b
  | Num n => negb (rounds_to_zero n)
  | Str s => nonempty s
  | Arr _ => true
  | Obj _ => true
  end.

(** *** Characters *)

Definition code (c : ascii) : N := N_of_ascii c.

Definition double_quote : ascii := ascii_of_N 34.
Definition backslash : ascii := ascii_of_N 92.

Definition is_space (c : ascii) : bool :=
  (code c =? 32) || (code c =? 9) || (code c =? 10) || (code c =? 13).

Definition is_digit (c : ascii) : bool := (48 <=? code c) && (code c <=? 57).

Definition is_letter (c : ascii) : bool := (97 <=? code c) && (code c <=? 122).

(** The characters a number is written with. *)
Definition is_number_char (c : ascii) : bool :=
  is_digit c || Ascii.eqb c "-" || Ascii.eqb c "+" || Ascii.eqb c "."
  || Ascii.eqb c "e" || Ascii.eqb c "E".

Definition hex_value (c : ascii) : option N :=
  let n := code c in
  if (48 <=? n) && (n <=? 57) then Some (n - 48)
  else if (97 <=? n) && (n <=? 102) then Some (n - 87)
  else if (65 <=? n) && (n <=? 70) then Some (n - 55)
  else None.

Definition snoc (s : string) (c : ascii) : string := s +:+ String c EmptyString.

(** *** Numbers *)

Fixpoint digits_value (acc : N) (s : string) : N :=
  match s with
  | EmptyString => acc
  | String c rest => digits_value (acc * 10 + (code c - 48)) rest
  end.

(** The digits a text starts with, and what follows them. *)
Fixpoint take_digits (s : string) : string * string :=
  match s with
  | EmptyString => (EmptyString, EmptyString)
  | String c rest =>
      if is_digit c
      then let '(d, r) := take_digits rest in (String c d, r)
      else (EmptyString, s)
  end.

(** An integer part: one digit, or digits that do not start with [0]. *)
Definition is_integer_part (d : string) : bool :=
  match d with
  | EmptyString => false
  | String c EmptyString => true
  | String c _ => negb (Ascii.eqb c "0")
  end.

Definition take_sign (s : string) : bool * string :=
  match s with
  | String c rest => if Ascii.eqb c "-" then (true, rest) else (false, s)
  | EmptyString => (false, s)
  end.

(** An optional fraction: a point and at least one digit. *)
Definition take_fraction (s : string) : option (string * string) :=
  match s with
  | String c rest =>
      if Ascii.eqb c "." then
        let '(d, r) := take_digits rest in
        match d with
        | EmptyString => None
        | _ => Some (d, r)
        end
      else Some (EmptyString, s)
  | EmptyString => Some (EmptyString, s)
  end.

(** An optional exponent, which ends the number: [e] or [E], an optional
    sign, at least one digit. *)
Definition take_exponent (s : string) : option Z :=
  match s with
  | EmptyString => Some 0%Z
  | String c rest =>
      if Ascii.eqb c "e" || Ascii.eqb c "E" then
        let '(minus, rest1) :=
          match rest with
          | String s1 r =>
              if Ascii.eqb s1 "-" then (true, r)
              else if Ascii.eqb s1 "+" then (false, r)
              else (false, rest)
          | EmptyString => (false, rest)
          end in
        let '(d, r) := take_digits rest1 in
        match d, r with
        | String _ _, EmptyString =>
            let x := Z.of_N (digits_value 0 d) in
            Some (if minus then (- x)%Z else x)
        | _, _ => None
        end
      else None
  end.

(** The number a run of number characters denotes, if it is one. *)
Definition number_of (w : string) : option Number :=
  let '(neg, w1) := take_sign w in
  let '(int, w2) := take_digits w1 in
  if is_integer_part int then
    match take_fraction w2 with
    | Some (frac, w3) =>
        match take_exponent w3 with
        | Some x =>
            Some {| negative := neg;
                    mantissa := digits_value 0 (int +:+ frac);
                    exponent := (x - Z.of_nat (String.length frac))%Z |}
        | None => None
        end
    | None => None
    end
  else None.

Definition word_of (w : string) : option Value :=
  if String.eqb w "true" then Some (Bool true)
  else if String.eqb w "false" then Some (Bool false)
  else if String.eqb w "null" then Some Null
  else None.

(** *** Tokens *)

Inductive Token :=
| LBrace | RBrace | LBracket | RBracket | Colon | Comma
| Scalar (v : Value).       (* a string, a number, true, false or null *)

(** Where the scanner is: between tokens, or inside one. *)
Inductive Scanning :=
| Between
| InWord (w : string)
| InNumber (w : string)
| InString (s : string)
| InEscape (s : string)
| InUnicode (s : string) (digits : list N).

(** A character met between tokens. *)
Definition scan_between (c : ascii) : option (Scanning * list Token) :=
  if is_space c then Some (Between, [])
  else if Ascii.eqb c "{" then Some (Between, [LBrace])
  else if Ascii.eqb c "}" then Some (Between, [RBrace])
  else if Ascii.eqb c "[" then Some (Between, [LBracket])
  else if Ascii.eqb c "]" then Some (Between, [RBracket])
  else if Ascii.eqb c ":" then Some (Between, [Colon])
  else if Ascii.eqb c "," then Some (Between, [Comma])
  else if Ascii.eqb c double_quote then Some (InString EmptyString, [])
  else if is_letter c then Some (InWord (String c EmptyString), [])
  else if is_digit c || Ascii.eqb c "-" then Some (InNumber (String c EmptyString), [])
  else None.

(** A word or a number ended by the character [c], which is then read on
    its own. *)
Definition close_with (v : option Value) (c : ascii)
    : option (Scanning * list Token) :=
  match v, scan_between c with
  | Some v, Some (st, ts) => Some (st, Scalar v :: ts)
  | _, _ => None
  end.

(** [\uXXXX] names the code unit XXXX.  The strings of the embedding hold
    the code units below 256; a text that names another has no value here,
    and the scanner stops on it as it does on a malformed one;
    [names_wide_unit] below tells such a text from a malformed one. *)
Definition unit_of_hex (digits : list N) : option ascii :=
  match digits with
  | [a; b; c; d] =>
      if (a =? 0) && (b =? 0) then Some (ascii_of_N (c * 16 + d)) else None
  | _ => None
  end.

(** The text holds a backslash, [u] and two characters that are not [00]:
    the one way for a text to name a code unit from 256 on. *)
Fixpoint names_wide_unit (text : string) : bool :=
  match text with
  | EmptyString => false
  | String b rest =>
      match rest with
      | String u (String x (String y _)) =>
          Ascii.eqb b backslash && Ascii.eqb u "u"
          && negb (Ascii.eqb x "0" && Ascii.eqb y "0")
      | _ => false
      end
      || names_wide_unit rest
  end.

Definition scan_char (st : Scanning) (c : ascii)
    : option (Scanning * list Token) :=
  match st with
  | Between => scan_between c
  | InWord w =>
      if is_letter c then Some (InWord (snoc w c), [])
      else close_with (word_of w) c
  | InNumber w =>
      if is_number_char c then Some (InNumber (snoc w c), [])
      else close_with (option_map Num (number_of w)) c
  | InString s =>
      if Ascii.eqb c double_quote then Some (Between, [Scalar (Str s)])
      else if Ascii.eqb c backslash then Some (InEscape s, [])
      else if code c <? 32 then None
      else Some (InString (snoc s c), [])
  | InEscape s =>
      if Ascii.eqb c double_quote || Ascii.eqb c backslash || Ascii.eqb c "/"
      then Some (InString (snoc s c), [])
      else if Ascii.eqb c "b" then Some (InString (snoc s (ascii_of_N 8)), [])
      else if Ascii.eqb c "f" then Some (InString (snoc s (ascii_of_N 12)), [])
      else if Ascii.eqb c "n" then Some (InString (snoc s (ascii_of_N 10)), [])
      else if Ascii.eqb c "r" then Some (InString (snoc s (ascii_of_N 13)), [])
      else if Ascii.eqb c "t" then Some (InString (snoc s (ascii_of_N 9)), [])
      else if Ascii.eqb c "u" then Some (InUnicode s [], [])
      else None
  | InUnicode s digits =>
      match hex_value c with
      | None => None
      | Some d =>
          let digits := digits ++ [d] in
          if (List.length digits <? 4)%nat then Some (InUnicode s digits, [])
          else match unit_of_hex digits with
               | Some u => Some (InString (snoc s u), [])
               | None => None
               end
      end
  end.

(** The scanner over a text: where it ends up, and the tokens it met. *)
Fixpoint scan (st : Scanning) (text : string)
    : option (Scanning * list Token) :=
  match text with
  | EmptyString => Some (st, [])
  | String c rest =>
      match scan_char st c with
      | None => None
      | Some (st1, ts1) =>
          match scan st1 rest with
          | None => None
          | Some (st2, ts2) => Some (st2, ts1 ++ ts2)
          end
      end
  end.

(** The end of the text: a word or a number may end there, a string may
    not. *)
Definition scan_end (st : Scanning) : option (list Token) :=
  match st with
  | Between => Some []
  | InWord w => option_map (fun v => [Scalar v]) (word_of w)
  | InNumber w => option_map (fun n => [Scalar (Num n)]) (number_of w)
  | InString _ | InEscape _ | InUnicode _ _ => None
  end.

Definition tokens (text : string) : option (list Token) :=
  match scan Between text with
  | None => None
  | Some (st, ts) =>
      match scan_end st with
      | None => None
      | Some last => Some (ts ++ last)
      end
  end.

(** *** Objects *)

(** An array index: the canonical decimal text of an integer from 0 to
    [2^32 - 2].  An object lists its array-index keys first, in ascending
    order, and its other keys after them in the order they were added. *)
Definition array_index (k : string) : option N :=
  let '(d, r) := take_digits k in
  match r with
  | EmptyString =>
      if is_integer_part d && (digits_value 0 d <=? 4294967294)
      then Some (digits_value 0 d)
      else None
  | String _ _ => None
  end.

Fixpoint get (props : list (string * Value)) (k : string) : option Value :=
  match props with
  | [] => None
  | (k1, v1) :: rest => if String.eqb k1 k then Some v1 else get rest k
  end.

Fixpoint replace (props : list (string * Value)) (k : string) (v : Value)
    : list (string * Value) :=
  match props with
  | [] => []
  | (k1, v1) :: rest =>
      if String.eqb k1 k then (k1, v) :: rest else (k1, v1) :: replace rest k v
  end.

Fixpoint insert_index (props : list (string * Value)) (n : N) (k : string)
    (v : Value) : list (string * Value) :=
  match props with
  | [] => [(k, v)]
  | (k1, v1) :: rest =>
      match array_index k1 with
      | Some n1 =>
          if n1 <? n then (k1, v1) :: insert_index rest n k v
          else (k, v) :: props
      | None => (k, v) :: props
      end
  end.

(** Give an object the property [k] with value [v]: a property it has
    keeps its place and takes the value; a new one goes to its place in the
    key order. *)
Definition set (props : list (string * Value)) (k : string) (v : Value)
    : list (string * Value) :=
  match get props k with
  | Some _ => replace props k v
  | None =>
      match array_index k with
      | Some n => insert_index props n k v
      | None => props ++ [(k, v)]
      end
  end.

(** *** The parser *)

(** A container that is open: the items of an array so far, or the
    properties of an object so far and the key whose value is awaited. *)
Inductive Frame :=
| InArray (items : list Value)
| InObject (props : list (string * Value)) (awaiting : option string).

(** What may come next. *)
Inductive Expecting :=
| AValue            (* a value *)
| AValueOrClose     (* after an opening bracket: a value or the closing one *)
| AKeyOrClose       (* after an opening brace: a key or the closing one *)
| AKey              (* after a comma in an object: a key *)
| AColon            (* after a key *)
| ACommaOrClose     (* after a value in a container *)
| TheEnd (v : Value).

(** A value is complete: it is the whole text, or goes into the innermost
    open container. *)
Definition complete (v : Value) (stack : list Frame)
    : option (Expecting * list Frame) :=
  match stack with
  | [] => Some (TheEnd v, [])
  | InArray items :: outer => Some (ACommaOrClose, InArray (items ++ [v]) :: outer)
  | InObject props (Some k) :: outer =>
      Some (ACommaOrClose, InObject (set props k v) None :: outer)
  | InObject _ None :: _ => None
  end.

Definition open_value (t : Token) (stack : list Frame)
    : option (Expecting * list Frame) :=
  match t with
  | Scalar v => complete v stack
  | LBracket => Some (AValueOrClose, InArray [] :: stack)
  | LBrace => Some (AKeyOrClose, InObject [] None :: stack)
  | _ => None
  end.

Definition close_array (stack : list Frame) : option (Expecting * list Frame) :=
  match stack with
  | InArray items :: outer => complete (Arr items) outer
  | _ => None
  end.

Definition close_object (stack : list Frame) : option (Expecting * list Frame) :=
  match stack with
  | InObject props None :: outer => complete (Obj props) outer
  | _ => None
  end.

Definition take_key (t : Token) (stack : list Frame)
    : option (Expecting * list Frame) :=
  match t, stack with
  | Scalar (Str k), InObject props None :: outer =>
      Some (AColon, InObject props (Some k) :: outer)
  | _, _ => None
  end.

Definition parse_token (ex : Expecting) (stack : list Frame) (t : Token)
    : option (Expecting * list Frame) :=
  match ex with
  | AValue => open_value t stack
  | AValueOrClose =>
      match t with
      | RBracket => close_array stack
      | _ => open_value t stack
      end
  | AKeyOrClose =>
      match t with
      | RBrace => close_object stack
      | _ => take_key t stack
      end
  | AKey => take_key t stack
  | AColon =>
      match t with
      | Colon => Some (AValue, stack)
      | _ => None
      end
  | ACommaOrClose =>
      match t, stack with
      | Comma, InArray _ :: _ => Some (AValue, stack)
      | Comma, InObject _ _ :: _ => Some (AKey, stack)
      | RBracket, _ => close_array stack
      | RBrace, _ => close_object stack
      | _, _ => None
      end
  | TheEnd _ => None
  end.

Fixpoint parse_tokens (ex : Expecting) (stack : list Frame) (ts : list Token)
    : option Value :=
  match ts with
  | [] =>
      match ex, stack with
      | TheEnd v, [] => Some v
      | _, _ => None
      end
  | t :: rest =>
      match parse_token ex stack t with
      | None => None
      | Some (ex1, stack1) => parse_tokens ex1 stack1 rest
      end
  end.

(** [JSON.parse(text)]: the value of the text, or a [SyntaxError]. *)
Definition parse (text : string) : Completion Value :=
  match tokens text with
  | None => Throw SyntaxError
  | Some ts =>
      match parse_tokens AValue [] ts with
      | None => Throw SyntaxError
      | Some v => Return v
      end
  end.

(** *** Writing *)

Definition hex_digit (n : N) : ascii :=
  if n <? 10 then ascii_of_N (48 + n) else ascii_of_N (87 + n).

Definition escape (c : ascii) : string := String backslash (String c EmptyString).

(** A code unit inside a quoted string: the quote and the backslash are
    escaped, the control characters have their short escapes or, for want
    of one, [\u00XX] in lower-case hexadecimal; the others stand for
    themselves. *)
Definition quote_unit (c : ascii) : string :=
  let n := code c in
  if n =? 34 then escape double_quote
  else if n =? 92 then escape backslash
  else if n =? 8 then escape "b"
  else if n =? 12 then escape "f"
  else if n =? 10 then escape "n"
  else if n =? 13 then escape "r"
  else if n =? 9 then escape "t"
  else if n <? 32 then
    String backslash (String "u" (String "0" (String "0"
      (String (hex_digit (n / 16)) (String (hex_digit (n mod 16)) EmptyString)))))
  else String c EmptyString.

Fixpoint quote_units (s : string) : string :=
  match s with
  | EmptyString => EmptyString
  | String c rest => quote_unit c +:+ quote_units rest
  end.

Definition quote (s : string) : string :=
  String double_quote (quote_units s +:+ String double_quote EmptyString).

Fixpoint join (sep : string) (parts : list string) : string :=
  match parts with
  | [] => EmptyString
  | [x] => x
  | x :: rest => x +:+ sep +:+ join sep rest
  end.

Section Writing.

(** [Number::toString] on the finite binary64 value of a number. *)
Variable Number_toString : Number -> string.

(** [JSON.stringify(v)]. *)
Fixpoint stringify (v : Value) : string :=
  match v with
  | Null => "null"
  | Bool true => "true"
  | Bool false => "false"
  | Num n => if is_finite n then Number_toString n else "null"
  | Str s => quote s
  | Arr items => "[" +:+ join "," (List.map stringify items) +:+ "]"
  | Obj props =>
      "{" +:+
      join "," (List.map (fun kv => quote (fst kv) +:+ ":" +:+ stringify (snd kv)) props)
      +:+ "}"
  end.

(** [String(v)], the text a value becomes where a string is wanted.  An
    array joins the texts of its items, [null] among them giving the
    empty text.  An object becomes a text through its [toString]: the
    built-in one gives [[object Object]]; a property [toString] of the
    object's own stands in its place and, parsed from a text, is no
    function, so that [valueOf] is tried, which gives no text either, and
    the conversion throws a [TypeError]. *)
Fixpoint to_string (v : Value) : Completion string :=
  match v with
  | Null => Return "null"
  | Bool true => Return "true"
  | Bool false => Return "false"
  | Num n =>
      Return (if is_finite n then Number_toString n
              else if negative n then "-Infinity" else "Infinity")
  | Str s => Return s
  | Arr items =>
      let! texts :=
        (fix each (l : list Value) : Completion (list string) :=
           match l with
           | [] => Return []
           | item :: rest =>
               let! text := match item with
                            | Null => Return EmptyString
                            | _ => to_string item
                            end in
               let! texts := each rest in
               Return (text :: texts)
           end) items in
      Return (join "," texts)
  | Obj props =>
      match get props "toString" with
      | Some _ => Throw TypeError
      | None => Return "[object Object]"
      end
  end.

End Writing.

End JSON.

(** ** Accessibility preferences *)

Definition PREFS_KEY : string := "shell_a11y_prefs".

(** [localStorage]: out of reach, when the browser denies the page its
    storage and every use of it throws; or the items it holds, with room
    for what the page writes next; or the items it holds, with its quota
    used up, so that it can be read and takes no write. *)
Inductive Storage :=
| Denied
| Items (items : gmap string string)
| Full (items : gmap string string).

(** [localStorage.getItem(k)]: the item, or [null]. *)
Definition getItem (k : string) (s : Storage) : Completion (option string) :=
  match s with
  | Denied => Throw SecurityError
  | Items items | Full items => Return (items !! k)
  end.

(** [localStorage.setItem(k, v)]: a storage with no room throws a
    [QuotaExceededError] and keeps what it holds. *)
Definition setItem (k v : string) (s : Storage) : Completion Storage :=
  match s with
  | Denied => Throw SecurityError
  | Items items => Return (Items (<[k := v]> items))
  | Full _ => Throw QuotaExceededError
  end.

(** The text [JSON.parse] reads when handed what [getItem] returned: the
    item, or the text of [null]. *)
Definition text_of_item (item : option string) : string :=
  match item with
  | Some text => text
  | None => "null"
  end.

(** The object literal [{}]. *)
Definition empty_record : JSON.Value := JSON.Obj [].

Definition loadPrefs (s : Storage) : Completion JSON.Value :=
  try_catch
    (let! item := getItem PREFS_KEY s in
     let! parsed := JSON.parse (text_of_item item) in
     Return (if JSON.truthy parsed then parsed else empty_record))
    (Return empty_record).

(** [v.name], for a name that arrays, strings and the built-in prototypes
    do not define ([textScale], [highContrast]): an own property of an
    object, or [undefined]. *)
Definition prop (v : JSON.Value) (name : string) : option JSON.Value :=
  match v with
  | JSON.Obj props => JSON.get props name
  | _ => None
  end.

(** [v.name = x] in a module, which is strict code: an object takes the
    property; a number, a string or a boolean throws a [TypeError].  An
    array takes the property beside its items, where [JSON.stringify] does
    not look; the listeners hand the array to [JSON.stringify] and drop it,
    and the arrays of the embedding hold their items only. *)
Definition assign (v : JSON.Value) (name : string) (x : JSON.Value)
    : Completion JSON.Value :=
  match v with
  | JSON.Obj props => Return (JSON.Obj (JSON.set props name x))
  | JSON.Arr items => Return (JSON.Arr items)
  | _ => Throw TypeError
  end.

(** A property read in a condition: [undefined] is falsy. *)
Definition truthy_prop (o : option JSON.Value) : bool :=
  match o with
  | Some v => JSON.truthy v
  | None => false
  end.

(** [o !== 'default']. *)
Definition is_not_default (o : option JSON.Value) : bool :=
  match o with
  | Some (JSON.Str s) => negb (String.eqb s "default")
  | _ => true
  end.

(** What [applyPrefs] works on of [document.documentElement]: its
    attributes other than [class], and the tokens of its class list in
    their order. *)
Record RootElement := {
  attributes : gmap string string;
  classList : list string;
}.

Definition setAttribute (name value : string) (r : RootElement) : RootElement :=
  {| attributes := <[name := value]> (attributes r); classList := classList r |}.

Definition removeAttribute (name : string) (r : RootElement) : RootElement :=
  {| attributes := delete name (attributes r); classList := classList r |}.

Definition contains (tokens : list string) (token : string) : bool :=
  List.existsb (String.eqb token) tokens.

(** [classList.add(token)]: a token the list has stays where it is. *)
Definition classList_add (token : string) (r : RootElement) : RootElement :=
  {| attributes := attributes r;
     classList := if contains (classList r) token then classList r
                  else classList r ++ [token] |}.

Definition classList_remove (token : string) (r : RootElement) : RootElement :=
  {| attributes := attributes r;
     classList := List.filter (fun t => negb (String.eqb token t)) (classList r) |}.

(** What the preference code works on: the storage and the root. *)
Definition Doc : Type := (Storage * RootElement)%type.

(** A call that reads the storage. *)
Definition reading {A : Type} (f : Storage -> Completion A) : Stateful Doc A :=
  fun st => (st, f (fst st)).

(** A call that writes to the storage, or throws and writes nothing. *)
Definition storing (f : Storage -> Completion Storage) : Stateful Doc unit :=
  fun st =>
    match f (fst st) with
    | Return s1 => ((s1, snd st), Return tt)
    | Throw e => (st, Throw e)
    end.

(** A call that works on the root. *)
Definition on_root (f : RootElement -> RootElement) : Stateful Doc unit :=
  writing (fun st => (fst st, f (snd st))).

Section Preferences.

(** [Number::toString], which the embedding leaves open. *)
Variable Number_toString : JSON.Number -> string.

Definition savePrefs (prefs : JSON.Value) (s : Storage) : Completion Storage :=
  setItem PREFS_KEY (JSON.stringify Number_toString prefs) s.

(** [String(o)] for a property read, as the DOM makes a text of an
    argument: [undefined] has a text too. *)
Definition text_of_prop (o : option JSON.Value) : Completion string :=
  match o with
  | Some v => JSON.to_string Number_toString v
  | None => Return "undefined"
  end.

(** [applyPrefs] on the storage and the root: what it leaves of them, and
    how it ended.  [setAttribute] makes a text of its argument before it
    writes, so a conversion that throws leaves the root as it was. *)
Definition applyPrefs_on : Stateful Doc unit :=
  do! prefs := reading loadPrefs in
  do! scaled :=
    (if truthy_prop (prop prefs "textScale")
        && is_not_default (prop prefs "textScale")
     then
       do! text := computing (text_of_prop (prop prefs "textScale")) in
       on_root (setAttribute "data-text-scale" text)
     else on_root (removeAttribute "data-text-scale")) in
  if truthy_prop (prop prefs "highContrast")
  then on_root (classList_add "high-contrast")
  else on_root (classList_remove "high-contrast").

(** [applyPrefs] when it returns: the root it leaves. *)
Definition applyPrefs (s : Storage) (r : RootElement) : Completion RootElement :=
  let! st := returned (applyPrefs_on (s, r)) in
  Return (snd st).

(** The [change] listener of the text-size select, whose value is
    [value]. *)
Definition scale_listener (value : string) : Stateful Doc unit :=
  do! p := reading loadPrefs in
  do! p1 := computing (assign p "textScale" (JSON.Str value)) in
  do! stored := storing (savePrefs p1) in
  applyPrefs_on.

(** The [change] listener of the high-contrast checkbox. *)
Definition contrast_listener (checked : bool) : Stateful Doc unit :=
  do! p := reading loadPrefs in
  do! p1 := computing (assign p "highContrast" (JSON.Bool checked)) in
  do! stored := storing (savePrefs p1) in
  applyPrefs_on.


Definition onContrastChange (checked : bool) (s : Storage) (r : RootElement)
    : Completion (Storage * RootElement) :=
  returned (contrast_listener checked (s, r)).

End Preferences.

(** ** The preference controls of the header *)

(** The values of the options of the text-size select. *)
Definition SCALE_OPTIONS : list string := ["default"; "large"; "larger"]%string.

(** [scaleSelect.value = x]: the option with that value is selected, and
    the select reads [x]; with no such option none is selected, and the
    select reads the empty string. *)
Definition select_value (x : string) : string :=
  if contains SCALE_OPTIONS x then x else EmptyString.

(** What [_setupPrefs] makes the two controls show. *)
Record Controls := {
  scale_shown : string;          (* scaleSelect.value *)
  contrast_checked : bool;       (* contrastToggle.checked *)
}.

Section Controls.

Variable Number_toString : JSON.Number -> string.

(** [_setupPrefs], up to the listeners it adds (which are
    [scale_listener] and [contrast_listener]).  [scaleSelect.value = x]
    makes a text of [x] before it selects; when that throws,
    [_setupPrefs] ends there, before it has added a listener or touched
    the checkbox. *)
Definition setupPrefs (s : Storage) : Completion Controls :=
  let! prefs := loadPrefs s in
  let! shown :=
    (if truthy_prop (prop prefs "textScale")
     then text_of_prop Number_toString (prop prefs "textScale")
     else Return "default"%string) in
  Return
    {| scale_shown := select_value shown;
       contrast_checked := truthy_prop (prop prefs "highContrast") |}.

End Controls.

(** ** The preferences panel *)

(** The panel and its button: [panel.hidden] and the button's
    [aria-expanded]. *)
Record Panel := {
  panel_hidden : bool;
  aria_expanded : string;
}.

(** As [connectedCallback] builds them: the panel with [hidden], the
    button with [aria-expanded] set to [false]. *)
Definition Panel_built : Panel :=
  {| panel_hidden := true; aria_expanded := "false" |}.

(** [String(b)]. *)
Definition string_of_bool (b : bool) : string :=
  if b then "true" else "false".

(** Where a click lands. *)
Inductive ClickTarget :=
| OnButton        (* the preferences button *)
| InPanel         (* the panel or something in it *)
| Elsewhere.

(** The [click] listener of the button. *)
Definition onButtonClick (pn : Panel) : Panel :=
  let isOpen := negb (panel_hidden pn) in
  {| panel_hidden := isOpen; aria_expanded := string_of_bool (negb isOpen) |}.

(** The [click] listener of the document that [_setupPrefsPanel] adds. *)
Definition onDocumentClick (target : ClickTarget) (pn : Panel) : Panel :=
  if negb (panel_hidden pn)
     && negb (match target with InPanel => true | _ => false end)
     && negb (match target with OnButton => true | _ => false end)
  then {| panel_hidden := true; aria_expanded := "false" |}
  else pn.

(** A click: the button's listener stops the propagation, so a click on
    the button does not reach the document's listener. *)
Definition click (target : ClickTarget) (pn : Panel) : Panel :=
  match target with
  | OnButton => onButtonClick pn
  | _ => onDocumentClick target pn
  end.

(** The [keydown] listener of the document that [_setupPrefsPanel] adds:
    the panel after it, and whether it moved the focus to the button. *)
Definition onPanelKeydown (e : KeyboardEvent) (pn : Panel) : Panel * bool :=
  if String.eqb (key e) "Escape" && negb (panel_hidden pn)
  then ({| panel_hidden := true; aria_expanded := "false" |}, true)
  else (pn, false).

Inductive PanelInput :=
| Click (target : ClickTarget)
| PanelKey (e : KeyboardEvent).

Definition panel_step (i : PanelInput) (pn : Panel) : Panel :=
  match i with
  | Click target => click target pn
  | PanelKey e => fst (onPanelKeydown e pn)
  end.

Definition panel_run (inputs : list PanelInput) (pn : Panel) : Panel :=
  List.fold_left (fun pn i => panel_step i pn) inputs pn.

(** ** Building elements *)

#[local] Set Warnings "-register-all".

(** A node of the document: a text, an element with its attributes in
    the order they were first set (the class among them) and its
    children, or a document fragment with its children.  A node is the
    value of what it holds: the script makes every node afresh and
    appends it once, and the embedding covers such nodes. *)
Inductive Node :=
| TextNode (text : string)
| ElementNode (tag : string) (attrs : list (string * string))
    (children : list Node)
| FragmentNode (children : list Node).

(** [setAttribute] on a list of attributes: an attribute that is there
    takes the value, a new one goes last.  The names the script gives
    are valid and in lower case, as the DOM keeps them; the embedding
    covers such names. *)
Fixpoint set_attr (name value : string) (attrs : list (string * string))
    : list (string * string) :=
  match attrs with
  | [] => [(name, value)]
  | (n, v) :: rest =>
      if String.eqb n name then (n, value) :: rest
      else (n, v) :: set_attr name value rest
  end.

Fixpoint get_attr (name : string) (attrs : list (string * string))
    : option string :=
  match attrs with
  | [] => None
  | (n, v) :: rest => if String.eqb n name then Some v else get_attr name rest
  end.

Definition node_setAttribute (name value : string) (n : Node) : Node :=
  match n with
  | ElementNode tag attrs children =>
      ElementNode tag (set_attr name value attrs) children
  | _ => n
  end.

Definition node_getAttribute (name : string) (n : Node) : option string :=
  match n with
  | ElementNode _ attrs _ => get_attr name attrs
  | _ => None
  end.

(** What [appendChild(child)] adds: the child, or, of a fragment, its
    children. *)
Definition appended (child : Node) : list Node :=
  match child with
  | FragmentNode children => children
  | _ => [child]
  end.

Definition appendChild (child : Node) (n : Node) : Node :=
  match n with
  | TextNode t => TextNode t
  | ElementNode tag attrs children =>
      ElementNode tag attrs (children ++ appended child)
  | FragmentNode children => FragmentNode (children ++ appended child)
  end.

(** [node.textContent = v]: the children give way to one text, or to none
    when [v] is empty. *)
Definition set_textContent (v : string) (n : Node) : Node :=
  match n with
  | TextNode _ => TextNode v
  | ElementNode tag attrs _ =>
      ElementNode tag attrs (if nonempty v then [TextNode v] else [])
  | FragmentNode _ => FragmentNode (if nonempty v then [TextNode v] else [])
  end.

(** One entry of the [attrs] object of [el]. *)
Definition el_entry (n : Node) (kv : string * string) : Node :=
  let '(k, v) := kv in
  if String.eqb k "textContent" then set_textContent v n
  else if String.eqb k "className" then node_setAttribute "class" v n
  else node_setAttribute k v n.

(** The helper [el(tag, attrs, children)]; a child that is a string is
    given as a [TextNode]. *)
Definition el (tag : string) (attrs : list (string * string))
    (children : list Node) : Node :=
  List.fold_left (fun n child => appendChild child n) children
    (List.fold_left el_entry attrs (ElementNode tag [] [])).

Section Header.

Variable SITE_ROOT : string.

(** The link [connectedCallback] makes for one item of the navigation;
    [current] is [this.getAttribute('current') || '']. *)
Definition nav_link (current : string) (item : NavItem) : Node :=
  let link :=
    el "a" [("href", resolveHref SITE_ROOT (nav_href item));
            ("textContent", nav_label item)]%string [] in
  if String.eqb (nav_id item) current
  then node_setAttribute "aria-current" "page" link
  else link.

(** The [nav] element of the header, for the header's [current]
    attribute. *)
Definition header_nav (current_attr : option string) : Node :=
  let current :=
    match current_attr with
    | Some c => if nonempty c then c else EmptyString
    | None => EmptyString
    end in
  List.fold_left (fun nav item => appendChild (nav_link current item) nav)
    NAV_ITEMS
    (el "nav" [("className", "shell-nav");
               ("aria-label", "Main navigation")]%string []).

End Header.

Definition node_children (n : Node) : list Node :=
  match n with
  | TextNode _ => []
  | ElementNode _ _ children => children
  | FragmentNode children => children
  end.

(** ** The shortcuts dialog *)

(** The keys of one entry as [createShortcutsDialog] lays them out: for
    every token a [kbd] element, and a space after it. *)
Definition shortcut_keys (s : Shortcut) : list Node :=
  List.flat_map
    (fun k => [el "kbd" [("className", "shell-kbd"); ("textContent", k)]%string [];
               TextNode " "])
    (split_space (keys s)).

(** The row [createShortcutsDialog] makes for one entry: the label, and
    the keys, which the row takes over from their fragment. *)
Definition shortcut_row (s : Shortcut) : Node :=
  el "li" []
    [el "span" [("textContent", label s)]%string [];
     FragmentNode (shortcut_keys s)].

(** The text a node shows: its texts, in order. *)
Fixpoint shown_text (n : Node) : string :=
  match n with
  | TextNode t => t
  | ElementNode _ _ children | FragmentNode children =>
      List.fold_right (fun c rest => shown_text c +:+ rest) EmptyString children
  end.

(** ** Branding *)

(** What [fetch] came to: a failure of the network, or a response with
    its [ok] and its body. *)
Inductive Fetched :=
| NetworkFailure
| Response (ok : bool) (body : string).

(** What [loadBranding] does to the page. *)
Inductive BrandingCall :=
| SetProperty (name value : string)   (* root.setProperty(name, value) *)
| SetLogoText (value : string).       (* logoText.textContent = value *)

(** [v.name] where [v] may be anything [JSON.parse] builds: [null] has no
    properties to read, and the read throws. *)
Definition read_prop (v : JSON.Value) (name : string)
    : Completion (option JSON.Value) :=
  match v with
  | JSON.Null => Throw TypeError
  | _ => Return (prop v name)
  end.

(** One call of [loadBranding] on the page: it joins the calls made so
    far. *)
Definition calling (c : BrandingCall) : Stateful (list BrandingCall) unit :=
  writing (fun calls => calls ++ [c]).

(** [try { body } catch { }]: what the body threw is dropped; what it
    wrote before stays written. *)
Definition caught {S : Type} (body : Stateful S unit) : Stateful S unit :=
  fun st =>
    match body st with
    | (st1, Throw _) => (st1, Return tt)
    | ended => ended
    end.

Section Branding.

Variable Number_toString : JSON.Number -> string.

(** What [loadBranding] tries.  [setProperty] and the setter of
    [textContent] make a text of their argument before they write.
    [has_logo_text] says whether [.shell-logo span] is in the document. *)
Definition branding_body (fetched : Fetched) (has_logo_text : bool)
    : Stateful (list BrandingCall) unit :=
  match fetched with
  | NetworkFailure => computing (Throw TypeError)
  | Response ok body =>
      if negb ok then computing (Return tt)
      else
        do! branding := computing (JSON.parse body) in
        do! primaryColor := computing (read_prop branding "primaryColor") in
        do! first :=
          (if truthy_prop primaryColor
           then
             do! text := computing (text_of_prop Number_toString primaryColor) in
             calling (SetProperty "--color-primary" text)
           else computing (Return tt)) in
        do! primaryHoverColor :=
          computing (read_prop branding "primaryHoverColor") in
        do! second :=
          (if truthy_prop primaryHoverColor
           then
             do! text :=
               computing (text_of_prop Number_toString primaryHoverColor) in
             calling (SetProperty "--color-primary-hover" text)
           else computing (Return tt)) in
        do! appName := computing (read_prop branding "appName") in
        if truthy_prop appName && has_logo_text
        then
          do! text := computing (text_of_prop Number_toString appName) in
          calling (SetLogoText text)
        else computing (Return tt)
  end.

(** [loadBranding]: the calls it makes, in order. *)
Definition loadBranding (fetched : Fetched) (has_logo_text : bool)
    : Completion (list BrandingCall) :=
  returned (caught (branding_body fetched has_logo_text) []).

End Branding.

(** ** Notions the properties are stated with *)

(** The shortcuts a listener call invoked, in order. *)
Fixpoint invoked (t : list Effect) : list Shortcut :=
  match t with
  | [] => []
  | Invoke s :: rest => s :: invoked rest
  | PreventDefault :: rest => invoked rest
  end.

(** A plain key press: no modifier held. *)
Definition press (k : string) : KeyboardEvent :=
  {| key := k; ctrlKey := false; metaKey := false; altKey := false;
     shiftKey := false |}.

(** The page when the module has just been evaluated: nothing pending, no
    timeout asked for yet. *)
Definition loaded (now : N) (focus : option Element) (dialog : option bool)
    (url : string) : Page :=
  {| pendingKey := None; pendingTimer := None; timeouts := [];
     nextHandle := 1%nat; clock := now; activeElement := focus;
     dialogOpen := dialog; location_href := url |}.

(** The matcher at rest: no pending token and no timeout outstanding. *)
Definition Idle (p : Page) : Prop := pendingKey p = None /\ timeouts p = [].

(** A pending token the registry accounts for: the first token of a
    registered two-token sequence. *)
Definition opens_sequence (k : string) : Prop :=
  exists s second, In s SHORTCUTS /\ sequence s = [k; second].

(** The listener's invariant: a token is pending exactly while its timeout
    is outstanding, and that timeout is the only one. *)
Definition settled (p : Page) : Prop :=
  match pendingKey p with
  | None => timeouts p = []
  | Some k =>
      opens_sequence k /\
      exists h t, timeouts p = [(h, t)] /\ pendingTimer p = Some h
  end.

(** A modifier key is held, in the specification's words: any of the four
    the event reports. *)
Definition modifier_held (e : KeyboardEvent) : bool :=
  ctrlKey e || metaKey e || altKey e || shiftKey e.

(** The focus where no control has it: on the body of the page. *)
Definition page_body : Element :=
  {| tagName := "BODY"; isContentEditable := false |}.

Definition example_root : string :=
  "https://example.github.io/cardigan-dashboard-static/".

Definition home_shortcut : Shortcut :=
  {| keys := "g h"; label := "Go to Home"; action := NavigateTo "home" |}.

Definition help_shortcut : Shortcut :=
  {| keys := "?"; label := "Show keyboard shortcuts";
     action := ToggleShortcutsModal |}.

(** Shift and the key that carries the question mark. *)
Definition shift_question_mark : KeyboardEvent :=
  {| key := "?"; ctrlKey := false; metaKey := false; altKey := false;
     shiftKey := true |}.

(** What makes the stored record unreadable: the storage is denied, the
    item is missing, or its text is malformed (a text of the embedding,
    naming no code unit from 256 on, that [JSON.parse] does not read). *)
Definition malformed (text : string) : Prop :=
  JSON.names_wide_unit text = false /\ JSON.parse text = Throw SyntaxError.

Definition unreadable (s : Storage) : Prop :=
  match s with
  | Denied => True
  | Items items | Full items =>
      match items !! PREFS_KEY with
      | None => True
      | Some text => malformed text
      end
  end.

(** The records the preference controls write: every value is a string, a
    boolean or [null], no key is an array index, no key comes twice. *)
Definition plain_value (v : JSON.Value) : bool :=
  match v with
  | JSON.Str _ | JSON.Bool _ | JSON.Null => true
  | _ => false
  end.

Definition is_none {A : Type} (o : option A) : bool :=
  match o with
  | None => true
  | Some _ => false
  end.

Fixpoint plain_props (seen : list string) (props : list (string * JSON.Value))
    : bool :=
  match props with
  | [] => true
  | (k, v) :: rest =>
      plain_value v && is_none (JSON.array_index k) && negb (contains seen k)
      && plain_props (seen ++ [k]) rest
  end.

Definition plain_record (props : list (string * JSON.Value)) : bool :=
  plain_props [] props.

(** The record [{textScale: "large"}]. *)
Definition large_text : JSON.Value :=
  JSON.Obj [("textScale"%string, JSON.Str "large")].

(** The text of one member of an object, and the tokens of the members of
    an object up to its closing brace. *)
Definition member (Number_toString : JSON.Number -> string)
    (kv : string * JSON.Value) : string :=
  JSON.quote (fst kv) +:+ ":" +:+ JSON.stringify Number_toString (snd kv).

Fixpoint member_tokens (props : list (string * JSON.Value)) : list JSON.Token :=
  match props with
  | [] => []
  | (k, v) :: rest =>
      JSON.Scalar (JSON.Str k) :: JSON.Colon :: JSON.Scalar v ::
      match rest with
      | [] => [JSON.RBrace]
      | _ :: _ => JSON.Comma :: member_tokens rest
      end
  end.

(** ** Notions for the further properties *)

(** The event with its key in lower case. *)
Definition lowered (e : KeyboardEvent) : KeyboardEvent :=
  {| key := toLowerCase (key e); ctrlKey := ctrlKey e; metaKey := metaKey e;
     altKey := altKey e; shiftKey := shiftKey e |}.

(** The listener goes past its two guards: the focus is in no text
    control, and none of Ctrl, Meta and Alt is held. *)
Definition qualifying (e : KeyboardEvent) (p : Page) : bool :=
  negb (isInputFocused p) && negb (ctrlKey e || metaKey e || altKey e).

(** No timeout is due later than 800 ms from now. *)
Definition timely (p : Page) : Prop :=
  Forall (fun t => snd t <= clock p + 800) (timeouts p).

(** The key presses, one after the other with no time between them, of
    the given keys. *)
Definition presses (ks : list string) : list Input :=
  List.map (fun k => Keydown (press k)) ks.

(** The texts of the [kbd] elements among some nodes. *)
Fixpoint kbd_texts (nodes : list Node) : list string :=
  match nodes with
  | [] => []
  | ElementNode tag _ children :: rest =>
      if String.eqb tag "kbd"
      then shown_text (ElementNode tag [] children) :: kbd_texts rest
      else kbd_texts rest
  | _ :: rest => kbd_texts rest
  end.

(** What some nodes show, one after the other. *)
Definition shown_texts (nodes : list Node) : string :=
  List.fold_right (fun n rest => shown_text n +:+ rest) EmptyString nodes.

(** A number, a string or a boolean: a value that is no object. *)
Definition primitive (v : JSON.Value) : bool :=
  match v with
  | JSON.Num _ | JSON.Str _ | JSON.Bool _ => true
  | _ => false
  end.

(** The storage once [savePrefs] has written the record [props] to it. *)
Definition saved (Number_toString : JSON.Number -> string)
    (props : list (string * JSON.Value)) (items : gmap string string) : Storage :=
  Items (<[PREFS_KEY := JSON.stringify Number_toString (JSON.Obj props)]> items).


(** The stored record [{textScale: {toString: 1}}], whose text size has no
    text. *)
Definition textless_scale : string :=
  "{" +:+ JSON.quote "textScale" +:+ ":{" +:+ JSON.quote "toString" +:+ ":1}}".

(** A body [loadBranding] takes nothing from: the response is not [ok],
    or its body is malformed, or it is JSON for something that is no
    object with properties. *)
Definition unbranded (fetched : Fetched) : Prop :=
  match fetched with
  | NetworkFailure => True
  | Response ok body =>
      ok = false \/ malformed body \/
      exists v, JSON.parse body = Return v /\
                match v with JSON.Obj _ => False | _ => True end
  end.

(** No click on the button among the inputs. *)
Fixpoint no_button_click (inputs : list PanelInput) : bool :=
  match inputs with
  | [] => true
  | Click OnButton :: _ => false
  | _ :: rest => no_button_click rest
  end.

(** The location is where the page was loaded, or where an item of the
    navigation leads. *)
Definition on_site (root url : string) (p : Page) : Prop :=
  location_href p = url \/
  exists item, In item NAV_ITEMS /\
               location_href p = resolveHref root (nav_href item).

(** A token is pending since this call of the listener: [k] it is, and
    its timeout, the only one, is the one the call on [p] asked for. *)
Definition pending_anew (k : string) (p p' : Page) : Prop :=
  pendingKey p' = Some k /\
  pendingTimer p' = Some (nextHandle p) /\
  timeouts p' = [(nextHandle p, clock p + 800)].

(** The button tells what the panel does: [aria-expanded] is the text of
    whether the panel is shown. *)
Definition in_step (pn : Panel) : Prop :=
  aria_expanded pn = string_of_bool (negb (panel_hidden pn)).

(** The links of a [nav] element that are marked as the current page. *)
Definition current_links (nav : Node) : list Node :=
  List.filter
    (fun link => match node_getAttribute "aria-current" link with
                 | Some _ => true
                 | None => false
                 end)
    (node_children nav).


(** The class call of [applyPrefs] for a record. *)
Definition contrast_of (prefs : JSON.Value) (r : RootElement) : RootElement :=
  if truthy_prop (prop prefs "highContrast")
  then classList_add "high-contrast" r
  else classList_remove "high-contrast" r.
(** * Properties of the navigation resolver *)

Lemma append_cons (x : ascii) (a b : string) :
  String x a +:+ b = String x (a +:+ b).
Proof. reflexivity. Qed.

Lemma append_empty_l (b : string) : EmptyString +:+ b = b.
Proof. reflexivity. Qed.

Lemma append_assoc (a b c : string) : (a +:+ b) +:+ c = a +:+ (b +:+ c).
Proof.
  induction a as [|x a IH]; [reflexivity|].
  now rewrite !append_cons, IH.
Qed.

Lemma append_empty_r (a : string) : a +:+ EmptyString = a.
Proof.
  induction a as [|x a IH]; [reflexivity|].
  now rewrite append_cons, IH.
Qed.

(** [C4] [resolveHref] of the path [/] is the site root itself; a path that
    starts with a slash resolves to the root followed by the path without
    that one slash, any other path to the root followed by the path; so
    [/example-tool/] resolves to the root followed by [example-tool/]. *)
Theorem resolveHref_root_and_paths (root : string) :
  resolveHref root "/" = root /\
  (forall rest, resolveHref root (String "/" rest) = root +:+ rest) /\
  (forall path, startsWith path "/" = false ->
                resolveHref root path = root +:+ path) /\
  resolveHref root "/example-tool/" = root +:+ "example-tool/".
Proof.
  split; [reflexivity|]. split; [|split; [|reflexivity]].
  - intros [|c rest]; cbn.
    + now rewrite append_empty_r.
    + reflexivity.
  - intros [|c path] Hstart; [reflexivity|].
    unfold resolveHref, strip_leading_slash.
    change (startsWith (String c path) "/")
      with (Ascii.eqb "/" c && startsWith path EmptyString) in Hstart.
    replace (startsWith path EmptyString) with true in Hstart
      by now destruct path.
    rewrite andb_true_r in Hstart.
    rewrite (Ascii.eqb_sym c "/"), Hstart.
    destruct (String.eqb_spec (String c path) "/") as [Heq | _]; [|reflexivity].
    injection Heq as -> _. discriminate.
Qed.

(** * Properties of the shortcut listener *)

Lemma find_shortcut_registered (seq : string) (s : Shortcut) :
  find_shortcut seq = Some s -> In s SHORTCUTS /\ keys s = seq.
Proof.
  unfold find_shortcut. intros H. apply List.find_some in H.
  destruct H as [Hin Heq]. split; [exact Hin|].
  apply String.eqb_eq. exact Heq.
Qed.

(** The only key that can open a sequence of the registry is [g]. *)
Lemma couldBePrefix_g (k : string) : couldBePrefix k = true -> k = "g".
Proof.
  unfold couldBePrefix, SHORTCUTS. cbn [List.existsb keys].
  rewrite !orb_true_iff. intros H.
  assert (Hgen : forall last : ascii,
             Ascii.eqb " " last = false ->
             startsWith (String "g" (String " " (String last EmptyString))) (k +:+ " ") = true ->
             k = "g").
  { clear H. intros last Hlast H.
    destruct k as [|c1 [|c2 [|c3 k]]];
      cbv [String.append] in H; cbn -[Ascii.eqb] in H;
      fold String.append in H; rewrite ?andb_true_iff in H.
    - destruct H as [H _]. discriminate.
    - destruct H as [H _]. apply Ascii.eqb_eq in H. now subst.
    - destruct H as (_ & _ & H & _). congruence.
    - destruct H as (_ & _ & _ & H). destruct k; discriminate. }
  destruct H as [H | [H | [H | H]]].
  - apply (Hgen "h"%char); [reflexivity | exact H].
  - apply (Hgen "e"%char); [reflexivity | exact H].
  - destruct k as [|c1 k]; cbv [String.append] in H; cbn -[Ascii.eqb] in H;
      fold String.append in H; rewrite ?andb_true_iff in H.
    + destruct H as [H _]. discriminate.
    + destruct H as [_ H]. destruct k; discriminate.
  - discriminate.
Qed.

(** Actions work on the dialog and the location only. *)
Lemma run_action_matcher (root : string) (a : Action) (p : Page) :
  pendingKey (run_action root a p) = pendingKey p /\
  pendingTimer (run_action root a p) = pendingTimer p /\
  timeouts (run_action root a p) = timeouts p.
Proof.
  destruct a as [id|]; cbn.
  - unfold navigateTo. destruct (List.find _ NAV_ITEMS); auto.
  - unfold toggleShortcutsModal. destruct (dialogOpen p); auto.
Qed.

Lemma opens_sequence_g : opens_sequence "g".
Proof.
  exists home_shortcut, "h"%string.
  split; [left; reflexivity | reflexivity].
Qed.

Lemma opens_sequence_nonempty (k : string) : opens_sequence k -> nonempty k = true.
Proof.
  intros (s & second & Hin & Hseq).
  cbn in Hin. destruct Hin as [<- | [<- | [<- | []]]];
    cbv in Hseq; try discriminate; injection Hseq as <- _; reflexivity.
Qed.

Lemma single_key_settled (root k : string) (p : Page) :
  pendingKey p = None -> timeouts p = [] ->
  settled (fst (single_key root k p)).
Proof.
  intros Hk Ht. unfold single_key.
  destruct (find_shortcut k) as [s|].
  - cbn. unfold settled.
    destruct (run_action_matcher root (action s) p) as (-> & _ & ->).
    now rewrite Hk.
  - destruct (couldBePrefix k) eqn:Hpre; cbn.
    + apply couldBePrefix_g in Hpre. subst k.
      unfold settled; cbn. split; [apply opens_sequence_g|].
      rewrite Ht. now eexists _, _.
    + unfold settled. now rewrite Hk.
Qed.

Lemma onKeydown_settled (root : string) (e : KeyboardEvent) (p : Page) :
  settled p -> settled (fst (onKeydown root e p)).
Proof.
  intros Hp. unfold onKeydown.
  destruct (isInputFocused p); [exact Hp|].
  destruct (ctrlKey e || metaKey e || altKey e); [exact Hp|].
  unfold settled in Hp.
  destruct (pendingKey p) as [pk|] eqn:Hpk.
  - destruct Hp as (Hopen & h & t & Ht & Hh).
    rewrite (opens_sequence_nonempty _ Hopen).
    assert (Hidle : pendingKey (set_pendingKey None (clearTimeout (pendingTimer p) p)) = None
                    /\ timeouts (set_pendingKey None (clearTimeout (pendingTimer p) p)) = []).
    { rewrite Hh. cbn. rewrite Ht. cbn. now rewrite Nat.eqb_refl. }
    destruct Hidle as [Hk0 Ht0].
    destruct (find_shortcut _) as [s|].
    + cbn. unfold settled.
      destruct (run_action_matcher root (action s)
                  (set_pendingKey None (clearTimeout (pendingTimer p) p)))
        as (-> & _ & ->).
      now rewrite Hk0.
    + now apply single_key_settled.
  - now apply single_key_settled.
Qed.

Lemma elapse_settled (d : N) (p : Page) : settled p -> settled (elapse d p).
Proof.
  unfold settled, elapse. cbn.
  destruct (pendingKey p) as [k|].
  - intros (Hopen & h & t & -> & Hh). cbn.
    destruct (due (clock p + d) (h, t)); cbn; [reflexivity|].
    split; [exact Hopen|]. now exists h, t.
  - intros ->. reflexivity.
Qed.

Lemma step_settled (root : string) (i : Input) (p : Page) :
  settled p -> settled (fst (step root i p)).
Proof.
  destruct i as [e|d|el]; cbn.
  - apply onKeydown_settled.
  - apply elapse_settled.
  - auto.
Qed.

Lemma run_settled (root : string) (inputs : list Input) (p : Page) :
  settled p -> settled (fst (run root inputs p)).
Proof.
  revert p. induction inputs as [|i rest IH]; intros p Hp; cbn.
  - exact Hp.
  - pose proof (step_settled root i p Hp) as H1.
    destruct (step root i p) as [p1 t1]. cbn in H1.
    specialize (IH p1 H1).
    destruct (run root rest p1) as [p2 t2]. exact IH.
Qed.

Lemma loaded_settled (now : N) (focus : option Element) (dialog : option bool)
    (url : string) : settled (loaded now focus dialog url).
Proof. reflexivity. Qed.

(** [C9] After any history of key presses, passing time and focus moves on
    a freshly loaded page, the pending token is absent or is the first token
    of a registered two-token sequence. *)
Theorem pending_token_opens_sequence (root : string) (inputs : list Input)
    (now : N) (focus : option Element) (dialog : option bool) (url : string) :
  let p := fst (run root inputs (loaded now focus dialog url)) in
  pendingKey p = None \/
  exists k s second,
    pendingKey p = Some k /\ In s SHORTCUTS /\ sequence s = [k; second].
Proof.
  intros p.
  pose proof (run_settled root inputs _ (loaded_settled now focus dialog url)) as H.
  fold p in H. unfold settled in H.
  destruct (pendingKey p) as [k|]; [right | now left].
  destruct H as ((s & second & Hin & Hseq) & _).
  now exists k, s, second.
Qed.

Lemma single_key_invoked (root k : string) (p : Page) :
  invoked (snd (single_key root k p)) = [] /\ find_shortcut k = None \/
  exists s, invoked (snd (single_key root k p)) = [s] /\ find_shortcut k = Some s.
Proof.
  unfold single_key. destruct (find_shortcut k) as [s|].
  - right. now exists s.
  - left. split; [|reflexivity]. now destruct (couldBePrefix k).
Qed.

(** [C8] One call of the listener invokes no shortcut or exactly one; the
    one it invokes is the registered entry whose sequence is the key just
    pressed, or the pending token followed by it. *)
Theorem at_most_one_action_per_keydown (root : string) (e : KeyboardEvent)
    (p : Page) :
  let t := snd (onKeydown root e p) in
  let k := toLowerCase (key e) in
  (length (invoked t) <= 1)%nat /\
  (invoked t = [] \/
   exists s, invoked t = [s] /\ In s SHORTCUTS /\
     (keys s = k \/
      exists pk, pendingKey p = Some pk /\ keys s = pk +:+ " " +:+ k)).
Proof.
  intros t k.
  assert (H : invoked t = [] \/
    exists s, invoked t = [s] /\ In s SHORTCUTS /\
      (keys s = k \/
       exists pk, pendingKey p = Some pk /\ keys s = pk +:+ " " +:+ k)).
  { subst t. unfold onKeydown. fold k.
    destruct (isInputFocused p); [now left|].
    destruct (ctrlKey e || metaKey e || altKey e); [now left|].
    assert (Hsingle : forall q,
      invoked (snd (single_key root k q)) = [] \/
      exists s, invoked (snd (single_key root k q)) = [s] /\ In s SHORTCUTS /\
        (keys s = k \/
         exists pk, pendingKey p = Some pk /\ keys s = pk +:+ " " +:+ k)).
    { intros q. destruct (single_key_invoked root k q) as [[H _] | (s & H & Hf)].
      - now left.
      - right. exists s. apply find_shortcut_registered in Hf.
        destruct Hf as [Hin Hk]. auto. }
    destruct (pendingKey p) as [pk|]; [|apply Hsingle].
    destruct (nonempty pk); [|apply Hsingle].
    destruct (find_shortcut (pk +:+ " " +:+ k)) as [s|] eqn:Hf; [|apply Hsingle].
    right. exists s. apply find_shortcut_registered in Hf.
    destruct Hf as [Hin Hk]. cbn. split; [reflexivity|]. split; [exact Hin|].
    right. now exists pk. }
  split; [|exact H].
  destruct H as [-> | (s & -> & _)]; cbn; lia.
Qed.

(** [C1], as stated, fails: with Shift held (as it is for [?] on most
    layouts) and the focus on no control, the listener prevents the default
    and opens the shortcuts dialog. *)
Lemma shift_is_not_left_alone :
  let p := loaded 0 (Some page_body) (Some false)
             (example_root +:+ "example-tool/") in
  modifier_held shift_question_mark = true /\
  isInputFocused p = false /\
  onKeydown example_root shift_question_mark p
  = (set_dialogOpen (Some true) p, [PreventDefault; Invoke help_shortcut]).
Proof. cbv zeta. split; [|split]; reflexivity. Qed.

(** [C1], amended: a key pressed while Ctrl, Meta or Alt is held, or while
    the focused element is an [input], a [textarea], a [select] or editable
    content, runs no action, prevents no default and leaves the page,
    pending token and timeout included, as it was. *)
Theorem non_qualifying_keydown_ignored (root : string) (e : KeyboardEvent)
    (p : Page) :
  (ctrlKey e = true \/ metaKey e = true \/ altKey e = true \/
   exists el, activeElement p = Some el /\
     (toLowerCase (tagName el) = "input" \/
      toLowerCase (tagName el) = "textarea" \/
      toLowerCase (tagName el) = "select" \/
      isContentEditable el = true)) ->
  onKeydown root e p = (p, []).
Proof.
  intros H. unfold onKeydown.
  destruct (isInputFocused p) eqn:Hfocus; [reflexivity|].
  destruct H as [H | [H | [H | (el & Hel & H)]]].
  - rewrite H. reflexivity.
  - rewrite H, orb_true_r. reflexivity.
  - rewrite H, orb_true_r. reflexivity.
  - exfalso. unfold isInputFocused in Hfocus. rewrite Hel in Hfocus.
    destruct H as [H | [H | [H | H]]]; rewrite H in Hfocus; cbn in Hfocus;
      try discriminate.
    destruct (_ || _ || _); discriminate.
Qed.

Lemma non_qualifying_keydown_ignored_witness :
  let p := loaded 0 (Some {| tagName := "TEXTAREA"; isContentEditable := false |})
             (Some false) example_root in
  onKeydown example_root (press "g") p = (p, []) /\
  onKeydown example_root
    {| key := "g"; ctrlKey := true; metaKey := false; altKey := false;
       shiftKey := false |}
    (loaded 0 (Some page_body) (Some false) example_root)
  = (loaded 0 (Some page_body) (Some false) example_root, []).
Proof.
  cbv zeta. split.
  - apply non_qualifying_keydown_ignored.
    right; right; right. eexists. split; [reflexivity|].
    right; left. reflexivity.
  - apply non_qualifying_keydown_ignored. left. reflexivity.
Defined.

(** [C2], as stated, fails: [g] pressed while [g] is pending makes no
    registered combination, and the listener goes on to start a new pending
    state from the second [g]; an [h] that follows completes [g h]. *)
Lemma failed_combo_restarts_pending :
  let p := loaded 0 (Some page_body) (Some false)
             (example_root +:+ "example-tool/") in
  let after_g := fst (run example_root [Keydown (press "g")] p) in
  pendingKey after_g = Some "g"%string /\
  find_shortcut ("g" +:+ " " +:+ "g") = None /\
  couldBePrefix "g" = true /\
  pendingKey (fst (onKeydown example_root (press "g") after_g)) = Some "g"%string /\
  invoked (snd (run example_root
                  [Keydown (press "g"); Keydown (press "g"); Keydown (press "h")] p))
  = [home_shortcut].
Proof. cbv zeta. repeat split; reflexivity. Qed.

(** [C2], amended: when the pending token and the new key make no
    registered combination, the listener drops the pending token and
    cancels its timeout, and then does with the key what it does when
    nothing is pending.  A key that is a single-token shortcut runs that
    shortcut, its default prevented.  A key that is none and opens a
    two-token sequence becomes the new pending token, with a timeout of
    its own due 800 ms from now.  Any other key does nothing more. *)
Theorem failed_combo_falls_through (root : string) (e : KeyboardEvent)
    (p : Page) (pk : string) :
  isInputFocused p = false ->
  ctrlKey e || metaKey e || altKey e = false ->
  pendingKey p = Some pk ->
  nonempty pk = true ->
  find_shortcut (pk +:+ " " +:+ toLowerCase (key e)) = None ->
  let k := toLowerCase (key e) in
  let idle := set_pendingKey None (clearTimeout (pendingTimer p) p) in
  (forall h t, pendingTimer p = Some h -> ~ In (h, t) (timeouts idle)) /\
  (forall h t, pendingTimer p = Some h -> timeouts p = [(h, t)] ->
               timeouts idle = []) /\
  onKeydown root e p = onKeydown root e idle /\
  match find_shortcut k with
  | Some s =>
      onKeydown root e p
      = (run_action root (action s) idle, [PreventDefault; Invoke s])
  | None =>
      if couldBePrefix k
      then exists p',
             onKeydown root e p = (p', []) /\
             pendingKey p' = Some k /\
             pendingTimer p' = Some (nextHandle p) /\
             timeouts p' = timeouts idle ++ [(nextHandle p, clock p + 800)] /\
             nextHandle p' = S (nextHandle p) /\
             location_href p' = location_href p /\
             dialogOpen p' = dialogOpen p
      else onKeydown root e p = (idle, [])
  end.
Proof.
  intros Hfocus Hmod Hpk Hne Hcombo k idle.
  assert (Hstep : onKeydown root e p = single_key root k idle).
  { unfold onKeydown. now rewrite Hfocus, Hmod, Hpk, Hne, Hcombo. }
  assert (Hsame : nextHandle idle = nextHandle p /\
            clock idle = clock p /\ location_href idle = location_href p /\
            dialogOpen idle = dialogOpen p)
    by (unfold idle; now destruct (pendingTimer p)).
  destruct Hsame as (Hhandle & Hclock & Hlocation & Hdialog).
  split; [|split; [|split]].
  - intros h t Hh Hin. unfold idle in Hin. rewrite Hh in Hin. cbn in Hin.
    apply List.filter_In in Hin. destruct Hin as [_ Hin]. cbn in Hin.
    now rewrite Nat.eqb_refl in Hin.
  - intros h t Hh Ht. unfold idle. rewrite Hh. cbn. rewrite Ht. cbn.
    now rewrite Nat.eqb_refl.
  - rewrite Hstep. unfold onKeydown.
    replace (isInputFocused idle) with (isInputFocused p)
      by (unfold idle; now destruct (pendingTimer p)).
    rewrite Hfocus, Hmod.
    replace (pendingKey idle) with (@None string) by reflexivity.
    reflexivity.
  - rewrite Hstep. unfold single_key.
    destruct (find_shortcut k) as [s|]; [reflexivity|].
    destruct (couldBePrefix k); [|reflexivity].
    eexists. split; [reflexivity|].
    cbn [pendingKey pendingTimer timeouts nextHandle location_href dialogOpen
         set_pendingTimer setTimeout snd fst set_pendingKey clock].
    rewrite Hhandle, Hclock, Hlocation, Hdialog. repeat split.
Qed.

Lemma failed_combo_falls_through_witness :
  let p := fst (run example_root [Keydown (press "g")]
                  (loaded 0 (Some page_body) (Some false) example_root)) in
  let idle := set_pendingKey None (clearTimeout (pendingTimer p) p) in
  (timeouts p = [(1%nat, 800)] /\ timeouts idle = []) /\
  (exists p',
     onKeydown example_root (press "g") p = (p', []) /\
     pendingKey p' = Some "g"%string /\
     pendingTimer p' = Some 2%nat /\
     timeouts p' = [(2%nat, 800)]) /\
  onKeydown example_root shift_question_mark p
  = (toggleShortcutsModal idle, [PreventDefault; Invoke help_shortcut]).
Proof.
  cbv zeta. split; [|split].
  - split; [reflexivity|].
    destruct (failed_combo_falls_through example_root (press "g")
                (fst (run example_root [Keydown (press "g")]
                        (loaded 0 (Some page_body) (Some false) example_root)))
                "g" eq_refl eq_refl eq_refl eq_refl eq_refl)
      as (_ & Hcleared & _).
    apply (Hcleared 1%nat 800); reflexivity.
  - destruct (failed_combo_falls_through example_root (press "g")
                (fst (run example_root [Keydown (press "g")]
                        (loaded 0 (Some page_body) (Some false) example_root)))
                "g" eq_refl eq_refl eq_refl eq_refl eq_refl)
      as (_ & _ & _ & p' & Hcall & Hkey & Htimer & Htimeouts & _).
    exists p'. split; [exact Hcall|]. split; [exact Hkey|].
    split; [exact Htimer | exact Htimeouts].
  - destruct (failed_combo_falls_through example_root shift_question_mark
                (fst (run example_root [Keydown (press "g")]
                        (loaded 0 (Some page_body) (Some false) example_root)))
                "g" eq_refl eq_refl eq_refl eq_refl eq_refl)
      as (_ & _ & _ & Hcall).
    exact Hcall.
Defined.

(** [C3] From rest, with the focus outside text controls: [g], then [h]
    less than 800 ms later, invokes the Home entry, once, and nothing else,
    which sends the location to the site root; [g], then [h] more than
    800 ms later, does nothing at all ([h] alone is no shortcut) and the
    matcher is at rest again. *)
Theorem g_then_h (root : string) (p : Page) (early late : N) :
  Idle p ->
  isInputFocused p = false ->
  early < 800 ->
  800 < late ->
  (let '(p', t) :=
     run root [Keydown (press "g"); Elapse early; Keydown (press "h")] p in
   t = [PreventDefault; Invoke home_shortcut] /\
   invoked t = [home_shortcut] /\
   location_href p' = root /\
   Idle p') /\
  (let '(p', t) :=
     run root [Keydown (press "g"); Elapse late; Keydown (press "h")] p in
   t = [] /\ Idle p' /\ location_href p' = location_href p) /\
  find_shortcut "h" = None.
Proof.
  intros [Hk Ht] Hfocus Hearly Hlate.
  assert (Hg : onKeydown root (press "g") p
               = (set_pendingTimer (Some (nextHandle p))
                    (snd (setTimeout 800 (set_pendingKey (Some "g"%string) p))), [])).
  { unfold onKeydown. now rewrite Hfocus, Hk. }
  cbn [run step]. rewrite Hg. clear Hg.
  set (pg := set_pendingTimer _ _).
  assert (Hfocus' : forall d, isInputFocused (elapse d pg) = false)
    by (intros; exact Hfocus).
  split; [|split; [|reflexivity]].
  - assert (He : elapse early pg
                 = {| pendingKey := Some "g"%string; pendingTimer := Some (nextHandle p);
                      timeouts := [(nextHandle p, clock p + 800)];
                      nextHandle := S (nextHandle p); clock := clock p + early;
                      activeElement := activeElement p; dialogOpen := dialogOpen p;
                      location_href := location_href p |}).
    { unfold elapse, pg. cbn. rewrite Ht. cbn. unfold due. cbn.
      replace (clock p + 800 <=? clock p + early) with false
        by (symmetry; apply N.leb_gt; lia).
      reflexivity. }
    unfold onKeydown at 1. rewrite Hfocus', He. cbn. rewrite Nat.eqb_refl. cbn.
    repeat split.
  - assert (He : elapse late pg
                 = {| pendingKey := None; pendingTimer := Some (nextHandle p);
                      timeouts := [];
                      nextHandle := S (nextHandle p); clock := clock p + late;
                      activeElement := activeElement p; dialogOpen := dialogOpen p;
                      location_href := location_href p |}).
    { unfold elapse, pg. cbn. rewrite Ht. cbn. unfold due. cbn.
      replace (clock p + 800 <=? clock p + late) with true
        by (symmetry; apply N.leb_le; lia).
      reflexivity. }
    unfold onKeydown at 1. rewrite Hfocus', He. cbn.
    repeat split.
Qed.

Lemma g_then_h_witness :
  let p := loaded 5000 (Some page_body)
             (Some false) (example_root +:+ "example-tool/") in
  (let '(p', t) :=
     run example_root [Keydown (press "g"); Elapse 300; Keydown (press "h")] p in
   t = [PreventDefault; Invoke home_shortcut] /\
   invoked t = [home_shortcut] /\
   location_href p' = example_root /\
   Idle p') /\
  (let '(p', t) :=
     run example_root [Keydown (press "g"); Elapse 1200; Keydown (press "h")] p in
   t = [] /\ Idle p' /\ location_href p' = location_href p) /\
  find_shortcut "h" = None.
Proof.
  cbv zeta.
  apply (g_then_h example_root
           (loaded 5000 (Some page_body)
              (Some false) (example_root +:+ "example-tool/")) 300 1200).
  - split; reflexivity.
  - reflexivity.
  - reflexivity.
  - reflexivity.
Defined.

(** * Properties of the preference store and applier *)

(** ** Reading back what [JSON.stringify] wrote *)

Lemma scan_cons (st : JSON.Scanning) (c : ascii) (rest : string) :
  JSON.scan st (String c rest)
  = match JSON.scan_char st c with
    | None => None
    | Some (st1, ts1) =>
        match JSON.scan st1 rest with
        | None => None
        | Some (st2, ts2) => Some (st2, ts1 ++ ts2)
        end
    end.
Proof. reflexivity. Qed.

Lemma scan_app (st : JSON.Scanning) (a b : string) :
  JSON.scan st (a +:+ b)
  = match JSON.scan st a with
    | None => None
    | Some (st1, ts1) =>
        match JSON.scan st1 b with
        | None => None
        | Some (st2, ts2) => Some (st2, ts1 ++ ts2)
        end
    end.
Proof.
  revert st. induction a as [|c a IH]; intros st.
  - rewrite append_empty_l. cbn [JSON.scan].
    now destruct (JSON.scan st b) as [[st2 ts2]|].
  - rewrite append_cons, !scan_cons.
    destruct (JSON.scan_char st c) as [[st1 ts1]|]; [|reflexivity].
    rewrite IH. destruct (JSON.scan st1 a) as [[st2 ts2]|]; [|reflexivity].
    destruct (JSON.scan st2 b) as [[st3 ts3]|]; [|reflexivity].
    now rewrite List.app_assoc.
Qed.

(** Inside a string, the scanner reads the escape of a code unit as that
    code unit. *)
Lemma scan_quote_unit (s : string) (c : ascii) :
  JSON.scan (JSON.InString s) (JSON.quote_unit c)
  = Some (JSON.InString (JSON.snoc s c), []).
Proof.
  destruct c as [[] [] [] [] [] [] [] []]; reflexivity.
Qed.

Lemma scan_quote_units (s acc : string) :
  JSON.scan (JSON.InString acc) (JSON.quote_units s)
  = Some (JSON.InString (acc +:+ s), []).
Proof.
  revert acc. induction s as [|c s IH]; intros acc; cbn [JSON.quote_units].
  - cbn. now rewrite append_empty_r.
  - rewrite scan_app, scan_quote_unit, IH. unfold JSON.snoc.
    now rewrite append_assoc.
Qed.

(** A quoted string and the text after it: the string is one token, and
    the scanner goes on between tokens. *)
Lemma scan_quote (s rest : string) :
  JSON.scan JSON.Between (JSON.quote s +:+ rest)
  = match JSON.scan JSON.Between rest with
    | None => None
    | Some (st, ts) => Some (st, JSON.Scalar (JSON.Str s) :: ts)
    end.
Proof.
  unfold JSON.quote. rewrite append_cons, scan_cons.
  change (JSON.scan_char JSON.Between JSON.double_quote)
    with (Some (JSON.InString EmptyString, @nil JSON.Token)).
  rewrite append_assoc, scan_app, scan_quote_units.
  rewrite !append_cons, !append_empty_l, scan_cons.
  change (JSON.scan_char (JSON.InString s) JSON.double_quote)
    with (Some (JSON.Between, [JSON.Scalar (JSON.Str s)])).
  cbv beta iota.
  destruct (JSON.scan JSON.Between rest) as [[st ts]|]; reflexivity.
Qed.

(** One step of the scanner on a character that is known. *)
Ltac scan_known_char :=
  rewrite ?append_cons, ?append_empty_l, scan_cons;
  match goal with
  | |- context [JSON.scan_char ?st ?c] =>
      let r := eval vm_compute in (JSON.scan_char st c) in
      change (JSON.scan_char st c) with r
  end;
  cbv beta iota.

Section ReadingBack.

Variable Number_toString : JSON.Number -> string.

(** A plain value before a comma or a closing brace is one token. *)
Lemma scan_plain_value (v : JSON.Value) (c : ascii) (rest : string) :
  plain_value v = true ->
  c = ","%char \/ c = "}"%char ->
  JSON.scan JSON.Between (JSON.stringify Number_toString v +:+ String c rest)
  = match JSON.scan JSON.Between (String c rest) with
    | None => None
    | Some (st, ts) => Some (st, JSON.Scalar v :: ts)
    end.
Proof.
  intros Hv Hc.
  destruct v as [|[]| |s| |]; try discriminate; cbn [JSON.stringify];
    [| | |apply scan_quote];
    (destruct Hc as [-> | ->]; repeat scan_known_char;
     destruct (JSON.scan JSON.Between rest) as [[st ts]|]; reflexivity).
Qed.

Lemma scan_member (k : string) (v : JSON.Value) (c : ascii) (rest : string) :
  plain_value v = true ->
  c = ","%char \/ c = "}"%char ->
  JSON.scan JSON.Between (member Number_toString (k, v) +:+ String c rest)
  = match JSON.scan JSON.Between (String c rest) with
    | None => None
    | Some (st, ts) =>
        Some (st, JSON.Scalar (JSON.Str k) :: JSON.Colon :: JSON.Scalar v :: ts)
    end.
Proof.
  intros Hv Hc. unfold member. cbn [fst snd].
  rewrite !append_assoc, scan_quote. scan_known_char.
  rewrite (scan_plain_value v c rest Hv Hc).
  destruct (JSON.scan JSON.Between (String c rest)) as [[st ts]|]; reflexivity.
Qed.

Lemma plain_props_values (seen : list string) (props : list (string * JSON.Value)) :
  plain_props seen props = true ->
  Forall (fun kv => plain_value (snd kv) = true) props.
Proof.
  revert seen. induction props as [|[k v] rest IH]; intros seen H.
  - constructor.
  - cbn in H. rewrite !andb_true_iff in H. destruct H as [[[Hv _] _] Hrest].
    constructor; [exact Hv | exact (IH _ Hrest)].
Qed.

Lemma scan_members (kv : string * JSON.Value) (rest : list (string * JSON.Value)) :
  Forall (fun kv => plain_value (snd kv) = true) (kv :: rest) ->
  JSON.scan JSON.Between (JSON.join "," (List.map (member Number_toString) (kv :: rest)) +:+ "}")
  = Some (JSON.Between, member_tokens (kv :: rest)).
Proof.
  revert kv. induction rest as [|kv' rest IH]; intros [k v] Hall.
  - cbn [List.map JSON.join]. inversion Hall as [|? ? Hv _]; subst.
    rewrite (scan_member k v "}" EmptyString Hv (or_intror eq_refl)).
    reflexivity.
  - inversion Hall as [|? ? Hv Hrest]; subst.
    change (JSON.join "," (List.map (member Number_toString) ((k, v) :: kv' :: rest)))
      with (member Number_toString (k, v) +:+ "," +:+ JSON.join "," (List.map (member Number_toString) (kv' :: rest))).
    rewrite !append_assoc, append_cons, append_empty_l.
    rewrite (scan_member k v "," _ Hv (or_introl eq_refl)).
    scan_known_char. rewrite (IH kv' Hrest). reflexivity.
Qed.

Lemma tokens_stringify_record (props : list (string * JSON.Value)) :
  Forall (fun kv => plain_value (snd kv) = true) props ->
  JSON.tokens (JSON.stringify Number_toString (JSON.Obj props))
  = Some (JSON.LBrace :: match props with
                         | [] => [JSON.RBrace]
                         | _ :: _ => member_tokens props
                         end).
Proof.
  intros Hall. unfold JSON.tokens. cbn [JSON.stringify].
  fold (member Number_toString). destruct props as [|kv rest].
  - reflexivity.
  - scan_known_char. rewrite (scan_members kv rest Hall).
    cbn [JSON.scan_end]. now rewrite List.app_nil_r.
Qed.

End ReadingBack.

Lemma get_unseen (props : list (string * JSON.Value)) (k : string) :
  contains (List.map fst props) k = false -> JSON.get props k = None.
Proof.
  induction props as [|[k1 v1] rest IH]; cbn; [reflexivity|].
  rewrite (String.eqb_sym k k1). destruct (String.eqb k1 k); cbn.
  - discriminate.
  - exact IH.
Qed.

Lemma set_new (props : list (string * JSON.Value)) (k : string) (v : JSON.Value) :
  JSON.get props k = None -> JSON.array_index k = None ->
  JSON.set props k v = props ++ [(k, v)].
Proof. intros Hget Hidx. unfold JSON.set. now rewrite Hget, Hidx. Qed.

(** The parser, inside an object that holds [done], reads the tokens of
    further members and the closing brace, and yields the object with all
    of them. *)
Lemma parse_members (props done : list (string * JSON.Value)) (ex : JSON.Expecting) :
  ex = JSON.AKeyOrClose \/ ex = JSON.AKey ->
  props <> [] ->
  plain_props (List.map fst done) props = true ->
  JSON.parse_tokens ex [JSON.InObject done None] (member_tokens props)
  = Some (JSON.Obj (done ++ props)).
Proof.
  revert done ex. induction props as [|[k v] rest IH]; intros done ex Hex Hne Hplain.
  - now destruct Hne.
  - cbn [plain_props] in Hplain. rewrite !andb_true_iff in Hplain.
    destruct Hplain as [[[Hv Hidx] Hseen] Hrest].
    assert (Hset : JSON.set done k v = done ++ [(k, v)]).
    { apply set_new.
      - apply get_unseen. now destruct (contains (List.map fst done) k).
      - now destruct (JSON.array_index k). }
    assert (Hkey : JSON.parse_token ex [JSON.InObject done None]
                     (JSON.Scalar (JSON.Str k))
                   = Some (JSON.AColon, [JSON.InObject done (Some k)])).
    { destruct Hex as [-> | ->]; reflexivity. }
    cbn [member_tokens JSON.parse_tokens]. rewrite Hkey.
    cbn [JSON.parse_tokens JSON.parse_token JSON.open_value JSON.complete].
    rewrite Hset.
    destruct rest as [|kv' rest'].
    + reflexivity.
    + cbn [JSON.parse_tokens JSON.parse_token].
      replace (done ++ (k, v) :: kv' :: rest')
        with ((done ++ [(k, v)]) ++ kv' :: rest')
        by now rewrite <- List.app_assoc.
      apply IH.
      * now right.
      * discriminate.
      * now rewrite List.map_app.
Qed.

(** [JSON.parse] reads back a plain record that [JSON.stringify] wrote. *)
Lemma parse_stringify_record (Number_toString : JSON.Number -> string)
    (props : list (string * JSON.Value)) :
  plain_record props = true ->
  JSON.parse (JSON.stringify Number_toString (JSON.Obj props))
  = Return (JSON.Obj props).
Proof.
  intros Hplain. unfold JSON.parse.
  rewrite tokens_stringify_record by exact (plain_props_values _ _ Hplain).
  destruct props as [|kv rest].
  - reflexivity.
  - cbn [JSON.parse_tokens JSON.parse_token JSON.open_value].
    now rewrite (parse_members (kv :: rest) [] JSON.AKeyOrClose)
      by (auto; discriminate).
Qed.

(** * The embedding on examples *)

Example toLowerCase_key : toLowerCase "G" = "g"%string.
Proof. reflexivity. Qed.

Example toLowerCase_tag : toLowerCase "TEXTAREA" = "textarea"%string.
Proof. reflexivity. Qed.

Example sequence_of_home : sequence home_shortcut = ["g"; "h"]%string.
Proof. reflexivity. Qed.

Example sequence_of_help : sequence help_shortcut = ["?"]%string.
Proof. reflexivity. Qed.

Example resolveHref_of_nav_items :
  List.map (fun item => resolveHref example_root (nav_href item)) NAV_ITEMS
  = [example_root; example_root +:+ "example-tool/"].
Proof. reflexivity. Qed.

(** With the capital letter, as with Shift held or the caps lock on, [G]
    then [E] is the sequence [g e]. *)
Example capital_g_capital_e :
  run example_root [Keydown (press "G"); Elapse 200; Keydown (press "E")]
    (loaded 0 (Some page_body) (Some false) example_root)
  = ({| pendingKey := None; pendingTimer := Some 1%nat; timeouts := [];
        nextHandle := 2; clock := 200; activeElement := Some page_body;
        dialogOpen := Some false;
        location_href := example_root +:+ "example-tool/" |},
     [PreventDefault;
      Invoke {| keys := "g e"; label := "Go to Example Tool";
                action := NavigateTo "example-tool" |}]).
Proof. reflexivity. Qed.

(** The question mark toggles the dialog; without the dialog the action
    does nothing, and the default is prevented all the same. *)
Example question_mark_without_dialog :
  onKeydown example_root (press "?") (loaded 0 (Some page_body) None example_root)
  = (loaded 0 (Some page_body) None example_root,
     [PreventDefault; Invoke help_shortcut]).
Proof. reflexivity. Qed.

Example parse_literals :
  List.map JSON.parse ["null"; "true"; " false "; "[]"; "{ }"]%string
  = [Return JSON.Null; Return (JSON.Bool true); Return (JSON.Bool false);
     Return (JSON.Arr []); Return (JSON.Obj [])].
Proof. reflexivity. Qed.

Example parse_number :
  JSON.parse "-12.50e+3"
  = Return (JSON.Num {| JSON.negative := true; JSON.mantissa := 1250;
                        JSON.exponent := 1 |}).
Proof. reflexivity. Qed.

Example parse_malformed :
  List.map JSON.parse
    [EmptyString; "{"; "[1,]"; "01"; "-"; "1."; ".5"; "+1"; "tru"; "nulls";
     "[1 2]"; "{a:1}"; "[1] 2"; "undefined"]%string
  = List.repeat (Throw SyntaxError) 14.
Proof. reflexivity. Qed.

Example parse_nested :
  JSON.parse ("{" +:+ JSON.quote "b" +:+ ": [1, {}], " +:+ JSON.quote "a"
              +:+ ":null}")
  = Return (JSON.Obj
              [("b"%string,
                JSON.Arr [JSON.Num {| JSON.negative := false; JSON.mantissa := 1;
                                      JSON.exponent := 0 |};
                          JSON.Obj []]);
               ("a"%string, JSON.Null)]).
Proof. reflexivity. Qed.

(** A key that comes twice keeps its first place and its last value; keys
    that are array indices come first, in ascending order. *)
Example parse_key_order :
  JSON.parse ("{" +:+ JSON.quote "b" +:+ ":true," +:+ JSON.quote "10"
              +:+ ":null," +:+ JSON.quote "9" +:+ ":null,"
              +:+ JSON.quote "b" +:+ ":false}")
  = Return (JSON.Obj [("9"%string, JSON.Null); ("10"%string, JSON.Null);
                      ("b"%string, JSON.Bool false)]).
Proof. reflexivity. Qed.

(** Zero in every spelling is falsy, and so is a decimal that rounds to
    zero; the least subnormal is not. *)
Example truthy_numbers :
  List.map (fun text => match JSON.parse text with
                        | Return v => Some (JSON.truthy v)
                        | Throw _ => None
                        end)
    ["0"; "-0"; "0.0"; "0e9"; "1e-400"; "2e-324"; "3e-324"; "5e-324"; "1"]%string
  = [Some false; Some false; Some false; Some false; Some false; Some false;
     Some true; Some true; Some true].
Proof. reflexivity. Qed.

Example stringify_record :
  JSON.parse
    (JSON.stringify (fun _ => EmptyString)
       (JSON.Obj [("textScale"%string, JSON.Str "larger");
                  ("highContrast"%string, JSON.Bool true)]))
  = Return (JSON.Obj [("textScale"%string, JSON.Str "larger");
                      ("highContrast"%string, JSON.Bool true)]).
Proof. reflexivity. Qed.

Example quote_control_characters :
  JSON.quote (String (ascii_of_N 10) (String (ascii_of_N 1) "x"))
  = String JSON.double_quote
      (String JSON.backslash "n" +:+ String JSON.backslash "u0001x"
       +:+ String JSON.double_quote EmptyString).
Proof. reflexivity. Qed.

(** ** Records under [JSON.set] *)

Lemma get_none_unseen (props : list (string * JSON.Value)) (k : string) :
  JSON.get props k = None -> contains (List.map fst props) k = false.
Proof.
  induction props as [|[k1 v1] rest IH]; cbn; [reflexivity|].
  rewrite (String.eqb_sym k k1). destruct (String.eqb k1 k); cbn.
  - discriminate.
  - exact IH.
Qed.

Lemma contains_app (a b : list string) (k : string) :
  contains (a ++ b) k = contains a k || contains b k.
Proof. apply List.existsb_app. Qed.

Lemma plain_props_replace (seen : list string)
    (props : list (string * JSON.Value)) (k : string) (v : JSON.Value) :
  plain_value v = true ->
  plain_props seen props = true ->
  plain_props seen (JSON.replace props k v) = true.
Proof.
  intros Hv. revert seen.
  induction props as [|[k1 v1] rest IH]; intros seen H; cbn; [reflexivity|].
  cbn in H. rewrite !andb_true_iff in H. destruct H as [[[Hv1 Hidx] Hseen] Hrest].
  destruct (String.eqb k1 k); cbn; rewrite !andb_true_iff; auto.
Qed.

Lemma plain_props_append (seen : list string)
    (props : list (string * JSON.Value)) (k : string) (v : JSON.Value) :
  plain_value v = true ->
  JSON.array_index k = None ->
  contains (seen ++ List.map fst props) k = false ->
  plain_props seen props = true ->
  plain_props seen (props ++ [(k, v)]) = true.
Proof.
  intros Hv Hidx. revert seen.
  induction props as [|[k1 v1] rest IH]; intros seen Hnew H; cbn.
  - cbn in Hnew. rewrite List.app_nil_r in Hnew. now rewrite Hv, Hidx, Hnew.
  - cbn in H. rewrite !andb_true_iff in H. destruct H as [[[Hv1 Hidx1] Hseen] Hrest].
    rewrite !andb_true_iff. repeat split; auto.
    apply IH; [|exact Hrest].
    now rewrite <- List.app_assoc.
Qed.

Lemma plain_record_set (props : list (string * JSON.Value)) (k : string)
    (v : JSON.Value) :
  plain_value v = true ->
  JSON.array_index k = None ->
  plain_record props = true ->
  plain_record (JSON.set props k v) = true.
Proof.
  intros Hv Hidx H. unfold plain_record, JSON.set. rewrite Hidx.
  destruct (JSON.get props k) eqn:Hget.
  - now apply plain_props_replace.
  - apply plain_props_append; auto. now apply get_none_unseen.
Qed.

Lemma get_replace (props : list (string * JSON.Value)) (k k' : string)
    (v : JSON.Value) :
  JSON.get (JSON.replace props k v) k'
  = if String.eqb k k' then option_map (fun _ => v) (JSON.get props k)
    else JSON.get props k'.
Proof.
  induction props as [|[k1 v1] rest IH]; cbn.
  - now destruct (String.eqb k k').
  - destruct (String.eqb_spec k1 k) as [-> | Hne]; cbn.
    + now destruct (String.eqb k k').
    + rewrite IH. destruct (String.eqb_spec k k') as [-> | Hne']; [|reflexivity].
      destruct (String.eqb_spec k1 k'); [contradiction | reflexivity].
Qed.

Lemma get_append (props : list (string * JSON.Value)) (k k' : string)
    (v : JSON.Value) :
  JSON.get (props ++ [(k, v)]) k'
  = match JSON.get props k' with
    | Some x => Some x
    | None => if String.eqb k k' then Some v else None
    end.
Proof.
  induction props as [|[k1 v1] rest IH]; cbn; [reflexivity|].
  now destruct (String.eqb k1 k').
Qed.

(** Setting a property that is no array index: the property reads back,
    every other property is as before. *)
Lemma get_set (props : list (string * JSON.Value)) (k k' : string)
    (v : JSON.Value) :
  JSON.array_index k = None ->
  JSON.get (JSON.set props k v) k'
  = if String.eqb k k' then Some v else JSON.get props k'.
Proof.
  intros Hidx. unfold JSON.set. rewrite Hidx.
  destruct (JSON.get props k) eqn:Hget.
  - rewrite get_replace, Hget. reflexivity.
  - rewrite get_append. destruct (String.eqb_spec k k') as [<- | Hne].
    + now rewrite Hget.
    + now destruct (JSON.get props k').
Qed.

(** ** The store *)

Lemma loadPrefs_returns (s : Storage) : exists prefs, loadPrefs s = Return prefs.
Proof.
  unfold loadPrefs. destruct s as [|items|items]; cbn; [now eexists| |];
    destruct (JSON.parse _) as [v|e]; cbn; now eexists.
Qed.

(** [C5] [loadPrefs] returns a value whatever the storage holds, and the
    empty record, which has no property, when the storage is denied, the
    item is missing or its text is malformed. *)
Theorem loadPrefs_never_throws (s : Storage) :
  (exists prefs, loadPrefs s = Return prefs) /\
  (unreadable s -> loadPrefs s = Return empty_record) /\
  (forall name, prop empty_record name = None).
Proof.
  split; [apply loadPrefs_returns|]. split; [|reflexivity].
  unfold unreadable, loadPrefs. destruct s as [|items|items]; cbn;
    [reflexivity| |];
    (destruct (items !! PREFS_KEY) as [text|]; cbn;
     [intros [_ ->]; reflexivity | reflexivity]).
Qed.

Lemma loadPrefs_never_throws_witness :
  loadPrefs (Items {[ PREFS_KEY := "{textScale:"%string ]}) = Return empty_record /\
  loadPrefs (Items ∅) = Return empty_record /\
  loadPrefs Denied = Return empty_record.
Proof.
  split; [|split].
  - apply (loadPrefs_never_throws (Items {[ PREFS_KEY := "{textScale:"%string ]})).
    split; reflexivity.
  - apply (loadPrefs_never_throws (Items ∅)). exact I.
  - apply (loadPrefs_never_throws Denied). exact I.
Defined.

(** [C10] When the stored text parses, [loadPrefs] returns its value as it
    is if the value is truthy, and the empty record if it is falsy.  The
    texts [null], [false], [0] and the empty string in quotes parse to
    falsy values (and a stored text that is itself empty does not parse,
    which comes to the empty record too); a number, a string and an array
    that are truthy come back as they are, though none is a record. *)
Theorem loadPrefs_keeps_truthy_value (items : gmap string string)
    (text : string) (v : JSON.Value) :
  items !! PREFS_KEY = Some text ->
  JSON.parse text = Return v ->
  loadPrefs (Items items) = Return (if JSON.truthy v then v else empty_record) /\
  List.map (fun t => (JSON.parse t,
                      loadPrefs (Items (<[PREFS_KEY := t]> items))))
    ["null"; "false"; "0"; JSON.quote EmptyString; EmptyString]%string
  = [(Return JSON.Null, Return empty_record);
     (Return (JSON.Bool false), Return empty_record);
     (Return (JSON.Num {| JSON.negative := false; JSON.mantissa := 0;
                          JSON.exponent := 0 |}), Return empty_record);
     (Return (JSON.Str EmptyString), Return empty_record);
     (Throw SyntaxError, Return empty_record)] /\
  List.map (fun t => loadPrefs (Items (<[PREFS_KEY := t]> items)))
    ["42"; JSON.quote "large"; "[1]"]%string
  = [Return (JSON.Num {| JSON.negative := false; JSON.mantissa := 42;
                         JSON.exponent := 0 |});
     Return (JSON.Str "large");
     Return (JSON.Arr [JSON.Num {| JSON.negative := false; JSON.mantissa := 1;
                                   JSON.exponent := 0 |}])].
Proof.
  intros Hitem Hparse. split; [|split].
  - unfold loadPrefs, getItem, bind. rewrite Hitem. unfold text_of_item.
    now rewrite Hparse.
  - unfold loadPrefs, getItem, bind. cbn [List.map].
    now rewrite !lookup_insert_eq.
  - unfold loadPrefs, getItem, bind. cbn [List.map].
    now rewrite !lookup_insert_eq.
Qed.

Lemma loadPrefs_keeps_truthy_value_witness :
  loadPrefs (Items {[ PREFS_KEY := "[1]"%string ]})
  = Return (JSON.Arr [JSON.Num {| JSON.negative := false; JSON.mantissa := 1;
                                  JSON.exponent := 0 |}]).
Proof.
  apply (loadPrefs_keeps_truthy_value {[ PREFS_KEY := "[1]"%string ]} "[1]"
           (JSON.Arr [JSON.Num {| JSON.negative := false; JSON.mantissa := 1;
                                  JSON.exponent := 0 |}])).
  - reflexivity.
  - reflexivity.
Defined.

(** ** The applier *)

Lemma filter_twice {A : Type} (f : A -> bool) (l : list A) :
  List.filter f (List.filter f l) = List.filter f l.
Proof.
  induction l as [|x l IH]; cbn; [reflexivity|].
  destruct (f x) eqn:Hx; cbn; [|exact IH].
  now rewrite Hx, IH.
Qed.

Lemma classList_add_twice (token : string) (r : RootElement) :
  classList_add token (classList_add token r) = classList_add token r.
Proof.
  unfold classList_add. cbn [classList attributes].
  destruct (contains (classList r) token) eqn:Hin.
  - now rewrite Hin.
  - rewrite contains_app, Hin. cbn. now rewrite String.eqb_refl.
Qed.

Lemma classList_remove_twice (token : string) (r : RootElement) :
  classList_remove token (classList_remove token r) = classList_remove token r.
Proof. unfold classList_remove. cbn. now rewrite filter_twice. Qed.

Lemma setAttribute_twice (name value : string) (r : RootElement) :
  setAttribute name value (setAttribute name value r) = setAttribute name value r.
Proof. unfold setAttribute. cbn. now rewrite insert_insert_eq. Qed.

Lemma removeAttribute_twice (name : string) (r : RootElement) :
  removeAttribute name (removeAttribute name r) = removeAttribute name r.
Proof. unfold removeAttribute. cbn. now rewrite delete_delete_eq. Qed.

(** The attribute calls and the class calls work on different parts of
    the root. *)
Lemma setAttribute_classList_add (name value token : string) (r : RootElement) :
  setAttribute name value (classList_add token r)
  = classList_add token (setAttribute name value r).
Proof. reflexivity. Qed.

Lemma setAttribute_classList_remove (name value token : string) (r : RootElement) :
  setAttribute name value (classList_remove token r)
  = classList_remove token (setAttribute name value r).
Proof. reflexivity. Qed.

Lemma removeAttribute_classList_add (name token : string) (r : RootElement) :
  removeAttribute name (classList_add token r)
  = classList_add token (removeAttribute name r).
Proof. reflexivity. Qed.

Lemma removeAttribute_classList_remove (name token : string) (r : RootElement) :
  removeAttribute name (classList_remove token r)
  = classList_remove token (removeAttribute name r).
Proof. reflexivity. Qed.

(** A plain record holds plain values. *)
Lemma plain_props_get (seen : list string) (props : list (string * JSON.Value))
    (k : string) (v : JSON.Value) :
  plain_props seen props = true ->
  JSON.get props k = Some v ->
  plain_value v = true.
Proof.
  revert seen. induction props as [|[k1 v1] rest IH]; intros seen H; cbn;
    [discriminate|].
  cbn in H. rewrite !andb_true_iff in H. destruct H as [[[Hv1 _] _] Hrest].
  destruct (String.eqb k1 k).
  - now intros [= <-].
  - now apply (IH (seen ++ [k1])).
Qed.

Section Applier.

Variable Number_toString : JSON.Number -> string.

(** The conversion to a text throws nothing but a [TypeError]. *)
Lemma to_string_throws :
  forall (v : JSON.Value) (e : Exception),
    JSON.to_string Number_toString v = Throw e -> e = TypeError.
Proof.
  fix IH 1. intros v e. destruct v as [|b|n|t|items|props]; cbn.
  - discriminate.
  - now destruct b.
  - discriminate.
  - discriminate.
  - induction items as [|item rest IHrest]; cbn; [discriminate|].
    assert (Hitem : forall e', match item with
                              | JSON.Null => Return EmptyString
                              | _ => JSON.to_string Number_toString item
                              end = Throw e' -> e' = TypeError).
    { intros e'. pose proof (IH item e') as Hrec.
      destruct item; try discriminate; exact Hrec. }
    destruct (match item with
              | JSON.Null => Return EmptyString
              | _ => JSON.to_string Number_toString item
              end) as [text|e']; cbn.
    + destruct ((fix each (l : list JSON.Value) : Completion (list string) := _) rest)
        as [texts|e'']; cbn; [discriminate|].
      intros [= <-]. now apply IHrest.
    + intros [= <-]. now apply Hitem.
  - destruct (JSON.get props "toString"); [now intros [= <-] | discriminate].
Qed.

Lemma text_of_prop_throws (o : option JSON.Value) (e : Exception) :
  text_of_prop Number_toString o = Throw e -> e = TypeError.
Proof. destruct o as [v|]; [apply to_string_throws | discriminate]. Qed.

(** A plain value has a text. *)
Lemma text_of_plain (props : list (string * JSON.Value)) (name : string) :
  plain_record props = true ->
  exists text, text_of_prop Number_toString (JSON.get props name) = Return text.
Proof.
  intros Hplain. destruct (JSON.get props name) as [v|] eqn:Hget; [|now eexists].
  pose proof (plain_props_get [] props name v Hplain Hget) as Hv.
  destruct v as [|[]| | | |]; try discriminate; now eexists.
Qed.

(** [applyPrefs], step by step, once the record is loaded. *)
Lemma applyPrefs_on_loaded (s : Storage) (r : RootElement) (prefs : JSON.Value) :
  loadPrefs s = Return prefs ->
  applyPrefs_on Number_toString (s, r)
  = if truthy_prop (prop prefs "textScale")
       && is_not_default (prop prefs "textScale")
    then match text_of_prop Number_toString (prop prefs "textScale") with
         | Return text =>
             ((s, contrast_of prefs (setAttribute "data-text-scale" text r)),
              Return tt)
         | Throw e => ((s, r), Throw e)
         end
    else ((s, contrast_of prefs (removeAttribute "data-text-scale" r)), Return tt).
Proof.
  intros Hload.
  unfold applyPrefs_on, and_then, reading, computing, on_root, writing, contrast_of.
  cbn [fst snd]. rewrite Hload.
  destruct (truthy_prop (prop prefs "textScale")
            && is_not_default (prop prefs "textScale")).
  - destruct (text_of_prop Number_toString (prop prefs "textScale")) as [text|e];
      [|reflexivity].
    now destruct (truthy_prop (prop prefs "highContrast")).
  - now destruct (truthy_prop (prop prefs "highContrast")).
Qed.

Lemma contrast_of_twice (prefs : JSON.Value) (r : RootElement) :
  contrast_of prefs (contrast_of prefs r) = contrast_of prefs r.
Proof.
  unfold contrast_of. destruct (truthy_prop (prop prefs "highContrast")).
  - apply classList_add_twice.
  - apply classList_remove_twice.
Qed.

Lemma setAttribute_contrast_of (prefs : JSON.Value) (name value : string)
    (r : RootElement) :
  setAttribute name value (contrast_of prefs r)
  = contrast_of prefs (setAttribute name value r).
Proof. unfold contrast_of. now destruct (truthy_prop _). Qed.

Lemma removeAttribute_contrast_of (prefs : JSON.Value) (name : string)
    (r : RootElement) :
  removeAttribute name (contrast_of prefs r)
  = contrast_of prefs (removeAttribute name r).
Proof. unfold contrast_of. now destruct (truthy_prop _). Qed.

(** [C6] Whatever the storage holds and whatever the root is, a second
    call of [applyPrefs] leaves the root, its scale attribute and its class
    list, exactly as the first call left it, and ends as the first call
    ended.  The call never writes to the storage.  It returns, or, when the
    stored text size has no text, throws a [TypeError] with the root as it
    was. *)
Theorem applyPrefs_idempotent (s : Storage) (r : RootElement) :
  let '(st1, ended1) := applyPrefs_on Number_toString (s, r) in
  applyPrefs_on Number_toString st1 = (st1, ended1) /\
  fst st1 = s /\
  (ended1 = Return tt \/ ended1 = Throw TypeError /\ snd st1 = r) /\
  (forall r1, applyPrefs Number_toString s r = Return r1 ->
              applyPrefs Number_toString s r1 = Return r1).
Proof.
  destruct (loadPrefs_returns s) as [prefs Hload].
  assert (Hsecond : forall r0 st ended,
            applyPrefs_on Number_toString (s, r0) = (st, ended) ->
            applyPrefs_on Number_toString st = (st, ended) /\
            fst st = s /\
            (ended = Return tt \/ ended = Throw TypeError /\ snd st = r0)).
  { intros r0 st ended. rewrite (applyPrefs_on_loaded s r0 prefs Hload).
    destruct (truthy_prop (prop prefs "textScale")
              && is_not_default (prop prefs "textScale")) eqn:Hscale.
    - destruct (text_of_prop Number_toString (prop prefs "textScale"))
        as [text|e] eqn:Htext; intros [= <- <-].
      + rewrite (applyPrefs_on_loaded s _ prefs Hload), Hscale, Htext.
        rewrite setAttribute_contrast_of, setAttribute_twice, contrast_of_twice.
        auto.
      + rewrite (applyPrefs_on_loaded s r0 prefs Hload), Hscale, Htext.
        rewrite (text_of_prop_throws _ _ Htext). auto.
    - intros [= <- <-].
      rewrite (applyPrefs_on_loaded s _ prefs Hload), Hscale.
      rewrite removeAttribute_contrast_of, removeAttribute_twice, contrast_of_twice.
      auto. }
  destruct (applyPrefs_on Number_toString (s, r)) as [st1 ended1] eqn:Hfirst.
  destruct (Hsecond r st1 ended1 Hfirst) as (Hsame & Hstorage & Hended).
  split; [exact Hsame|]. split; [exact Hstorage|]. split; [exact Hended|].
  intros r1. unfold applyPrefs. rewrite Hfirst.
  destruct st1 as [s1 r1']. cbn [fst] in Hstorage. subst s1.
  destruct ended1 as [[]|e]; cbn [returned bind snd]; [|discriminate].
  intros [= <-]. now rewrite Hsame.
Qed.

(** ** Saving and loading *)

Lemma load_after_save (props : list (string * JSON.Value))
    (items : gmap string string) :
  plain_record props = true ->
  (let! s1 := savePrefs Number_toString (JSON.Obj props) (Items items) in
   loadPrefs s1) = Return (JSON.Obj props).
Proof.
  intros Hplain. unfold savePrefs, setItem, loadPrefs, getItem, bind.
  rewrite lookup_insert_eq. unfold text_of_item.
  now rewrite parse_stringify_record.
Qed.

Lemma loadPrefs_saved (props : list (string * JSON.Value))
    (items : gmap string string) :
  plain_record props = true ->
  loadPrefs (saved Number_toString props items) = Return (JSON.Obj props).
Proof. apply load_after_save. Qed.

Lemma savePrefs_saved (props props' : list (string * JSON.Value))
    (items : gmap string string) :
  savePrefs Number_toString (JSON.Obj props') (saved Number_toString props items)
  = Return (saved Number_toString props' items).
Proof.
  unfold savePrefs, saved, setItem. now rewrite insert_insert_eq.
Qed.

(** On a stored plain record [applyPrefs] returns. *)
Lemma applyPrefs_on_saved (props : list (string * JSON.Value))
    (items : gmap string string) (r : RootElement) :
  plain_record props = true ->
  exists r1,
    applyPrefs_on Number_toString (saved Number_toString props items, r)
    = ((saved Number_toString props items, r1), Return tt).
Proof.
  intros Hplain.
  rewrite (applyPrefs_on_loaded _ r _ (loadPrefs_saved props items Hplain)).
  cbn [prop]. destruct (text_of_plain props "textScale" Hplain) as [text ->].
  destruct (_ && _); now eexists.
Qed.

(** A change listener over a stored plain record, on a storage that takes
    the write. *)
Lemma listener_saved (props : list (string * JSON.Value))
    (items : gmap string string) (name : string) (x : JSON.Value)
    (r : RootElement) :
  plain_record props = true ->
  plain_value x = true ->
  JSON.array_index name = None ->
  exists r1,
    (do! p := reading loadPrefs in
     do! p1 := computing (assign p name x) in
     do! stored := storing (savePrefs Number_toString p1) in
     applyPrefs_on Number_toString) (saved Number_toString props items, r)
    = ((saved Number_toString (JSON.set props name x) items, r1), Return tt) /\
    applyPrefs_on Number_toString
      (saved Number_toString (JSON.set props name x) items, r)
    = ((saved Number_toString (JSON.set props name x) items, r1), Return tt).
Proof.
  intros Hplain Hx Hname.
  destruct (applyPrefs_on_saved (JSON.set props name x) items r
              (plain_record_set props name x Hx Hname Hplain)) as [r1 Hr1].
  exists r1. split; [|exact Hr1].
  unfold and_then at 1 2 3, reading, computing, storing. cbn [fst snd].
  rewrite (loadPrefs_saved props items Hplain). cbn [assign].
  rewrite savePrefs_saved. exact Hr1.
Qed.

(** [C7] Saving [{textScale: "large"}] and loading returns that record:
    [textScale] is ["large"], [highContrast] is absent.  For every plain
    record: loading after saving returns the record; and when the contrast
    checkbox then changes (its listener loads, sets [highContrast] and
    saves), loading returns the record with [highContrast] set and
    [textScale] as it was saved. *)
Theorem store_round_trip (props : list (string * JSON.Value))
    (items : gmap string string) (checked : bool) (r : RootElement) :
  plain_record props = true ->
  ((let! s1 := savePrefs Number_toString large_text (Items items) in loadPrefs s1)
   = Return large_text /\
   prop large_text "textScale" = Some (JSON.Str "large") /\
   prop large_text "highContrast" = None) /\
  (let! s1 := savePrefs Number_toString (JSON.Obj props) (Items items) in
   loadPrefs s1) = Return (JSON.Obj props) /\
  exists after,
    (let! s1 := savePrefs Number_toString (JSON.Obj props) (Items items) in
     let! s2 := onContrastChange Number_toString checked s1 r in
     loadPrefs (fst s2)) = Return after /\
    prop after "textScale" = prop (JSON.Obj props) "textScale" /\
    prop after "highContrast" = Some (JSON.Bool checked).
Proof.
  intros Hplain. split; [|split].
  - split; [|split; reflexivity]. now apply load_after_save.
  - now apply load_after_save.
  - exists (JSON.Obj (JSON.set props "highContrast" (JSON.Bool checked))).
    split; [|split].
    + change (savePrefs Number_toString (JSON.Obj props) (Items items))
        with (Return (saved Number_toString props items)).
      cbn [bind]. unfold onContrastChange, contrast_listener.
      destruct (listener_saved props items "highContrast" (JSON.Bool checked) r
                  Hplain eq_refl eq_refl) as (r1 & -> & _).
      cbn [returned bind fst].
      apply loadPrefs_saved.
      now apply plain_record_set.
    + cbn [prop]. now rewrite get_set.
    + cbn [prop]. now rewrite get_set.
Qed.

End Applier.

Lemma store_round_trip_witness :
  let number_text := fun _ : JSON.Number => "0"%string in
  let r := {| attributes := ∅; classList := [] |} in
  ((let! s1 := savePrefs number_text large_text (Items ∅) in loadPrefs s1)
   = Return large_text /\
   prop large_text "textScale" = Some (JSON.Str "large") /\
   prop large_text "highContrast" = None) /\
  (let! s1 := savePrefs number_text large_text (Items ∅) in
   loadPrefs s1) = Return large_text /\
  exists after,
    (let! s1 := savePrefs number_text large_text (Items ∅) in
     let! s2 := onContrastChange number_text true s1 r in
     loadPrefs (fst s2)) = Return after /\
    prop after "textScale" = prop large_text "textScale" /\
    prop after "highContrast" = Some (JSON.Bool true).
Proof.
  cbv zeta.
  apply (store_round_trip (fun _ => "0"%string)
           [("textScale"%string, JSON.Str "large")] ∅ true
           {| attributes := ∅; classList := [] |}).
  reflexivity.
Defined.

(** * Further properties of the shortcut listener *)

(** [X1] After any history on a freshly loaded page at most one timeout is
    outstanding; one is outstanding exactly while a token is pending, and
    it is the one [pendingTimer] names. *)
Theorem at_most_one_timeout (root : string) (inputs : list Input)
    (now : N) (focus : option Element) (dialog : option bool) (url : string) :
  let p := fst (run root inputs (loaded now focus dialog url)) in
  (length (timeouts p) <= 1)%nat /\
  (pendingKey p = None <-> timeouts p = []) /\
  (forall h t, In (h, t) (timeouts p) -> pendingTimer p = Some h).
Proof.
  intros p.
  pose proof (run_settled root inputs _ (loaded_settled now focus dialog url)) as H.
  fold p in H. unfold settled in H.
  destruct (pendingKey p) as [k|].
  - destruct H as (_ & h & t & -> & ->). cbn. split; [lia|]. split.
    + split; discriminate.
    + intros h' t' [Heq | []]. now injection Heq as -> _.
  - rewrite H. cbn. split; [lia|]. split; [tauto|]. intros h t [].
Qed.

Lemma run_action_clock (root : string) (a : Action) (p : Page) :
  clock (run_action root a p) = clock p.
Proof.
  destruct a as [id|]; cbn.
  - unfold navigateTo. now destruct (List.find _ NAV_ITEMS).
  - unfold toggleShortcutsModal. now destruct (dialogOpen p).
Qed.

Lemma Forall_filter_keeps {A : Type} (P : A -> Prop) (f : A -> bool) (l : list A) :
  Forall P l -> Forall P (List.filter f l).
Proof.
  induction 1 as [|x l Hx Hl IH]; cbn; [constructor|].
  destruct (f x); [constructor|]; assumption.
Qed.

Lemma clearTimeout_timely (h : option nat) (p : Page) :
  timely p -> timely (clearTimeout h p).
Proof.
  destruct h as [h|]; [|auto]. unfold timely. cbn. apply Forall_filter_keeps.
Qed.

Lemma single_key_timely (root k : string) (p : Page) :
  timely p -> timely (fst (single_key root k p)).
Proof.
  intros Hp. unfold single_key.
  destruct (find_shortcut k) as [s|]; cbn [fst].
  - unfold timely.
    destruct (run_action_matcher root (action s) p) as (_ & _ & ->).
    now rewrite run_action_clock.
  - destruct (couldBePrefix k); cbn [fst]; [|exact Hp].
    unfold timely. cbn. apply Forall_app. split; [exact Hp|].
    constructor; [cbn; lia | constructor].
Qed.

Lemma onKeydown_timely (root : string) (e : KeyboardEvent) (p : Page) :
  timely p -> timely (fst (onKeydown root e p)).
Proof.
  intros Hp. unfold onKeydown.
  destruct (isInputFocused p); [exact Hp|].
  destruct (ctrlKey e || metaKey e || altKey e); [exact Hp|].
  assert (Hcleared : timely (set_pendingKey None (clearTimeout (pendingTimer p) p)))
    by exact (clearTimeout_timely (pendingTimer p) p Hp).
  destruct (pendingKey p) as [pk|]; [|now apply single_key_timely].
  destruct (nonempty pk); [|now apply single_key_timely].
  destruct (find_shortcut _) as [s|]; [|now apply single_key_timely].
  cbn. unfold timely.
  destruct (run_action_matcher root (action s)
              (set_pendingKey None (clearTimeout (pendingTimer p) p)))
    as (_ & _ & ->).
  rewrite run_action_clock. exact Hcleared.
Qed.

Lemma elapse_timely (d : N) (p : Page) : timely p -> timely (elapse d p).
Proof.
  intros Hp. unfold timely, elapse. cbn. apply Forall_filter_keeps.
  revert Hp. apply List.Forall_impl. intros t Ht. lia.
Qed.

Lemma run_timely (root : string) (inputs : list Input) (p : Page) :
  timely p -> timely (fst (run root inputs p)).
Proof.
  revert p. induction inputs as [|i rest IH]; intros p Hp; cbn; [exact Hp|].
  assert (H1 : timely (fst (step root i p))).
  { destruct i as [e|d|el]; cbn.
    - now apply onKeydown_timely.
    - now apply elapse_timely.
    - exact Hp. }
  destruct (step root i p) as [p1 t1]. cbn in H1.
  specialize (IH p1 H1). now destruct (run root rest p1) as [p2 t2].
Qed.

(** [X2] Whatever happened before, once 800 ms or more pass without a
    listener call nothing is pending and no timeout is outstanding. *)
Theorem pending_expires_after_800ms (root : string) (inputs : list Input)
    (now : N) (focus : option Element) (dialog : option bool) (url : string)
    (d : N) :
  800 <= d ->
  Idle (elapse d (fst (run root inputs (loaded now focus dialog url)))).
Proof.
  intros Hd.
  pose proof (run_settled root inputs _ (loaded_settled now focus dialog url)) as Hs.
  pose proof (run_timely root inputs (loaded now focus dialog url)
                (List.Forall_nil _)) as Ht.
  set (p := fst (run root inputs (loaded now focus dialog url))) in *.
  unfold settled in Hs. unfold timely in Ht. unfold Idle, elapse. cbn.
  destruct (pendingKey p) as [k|].
  - destruct Hs as (_ & h & t & Heq & _). rewrite Heq in *.
    inversion Ht as [|? ? Hdue _]; subst. cbn in Hdue. cbn. unfold due. cbn.
    replace (t <=? clock p + d) with true by (symmetry; apply N.leb_le; lia).
    now split.
  - rewrite Hs. now split.
Qed.

Lemma pending_expires_after_800ms_witness :
  Idle (elapse 800
          (fst (run example_root [Keydown (press "g"); Elapse 300]
                  (loaded 0 (Some page_body) (Some false) example_root)))).
Proof.
  apply (pending_expires_after_800ms example_root
           [Keydown (press "g"); Elapse 300] 0 (Some page_body) (Some false)
           example_root 800).
  apply N.le_refl.
Defined.

Lemma lower_unit_twice (c : ascii) : lower_unit (lower_unit c) = lower_unit c.
Proof. destruct c as [[] [] [] [] [] [] [] []]; reflexivity. Qed.

Lemma toLowerCase_twice (s : string) : toLowerCase (toLowerCase s) = toLowerCase s.
Proof.
  induction s as [|c s IH]; cbn; [reflexivity|].
  now rewrite lower_unit_twice, IH.
Qed.

(** [X3] The listener does not tell a key from its lower case: [G] does
    what [g] does, in every state of the page. *)
Theorem keydown_ignores_case (root : string) (e : KeyboardEvent) (p : Page) :
  onKeydown root e p = onKeydown root (lowered e) p.
Proof.
  unfold onKeydown, lowered. cbn [key ctrlKey metaKey altKey].
  now rewrite toLowerCase_twice.
Qed.

Lemma single_key_trace (root k : string) (p : Page) :
  snd (single_key root k p) = [] \/
  exists s, In s SHORTCUTS /\ snd (single_key root k p) = [PreventDefault; Invoke s].
Proof.
  unfold single_key. destruct (find_shortcut k) as [s|] eqn:Hf.
  - right. exists s. split; [|reflexivity].
    now apply find_shortcut_registered in Hf.
  - left. now destruct (couldBePrefix k).
Qed.

(** [X4] The listener prevents the default of exactly the key presses
    that run a shortcut: one call does nothing its caller can see, or
    prevents the default and then runs one registered entry. *)
Theorem default_prevented_with_action (root : string) (e : KeyboardEvent)
    (p : Page) :
  snd (onKeydown root e p) = [] \/
  exists s, In s SHORTCUTS /\
            snd (onKeydown root e p) = [PreventDefault; Invoke s].
Proof.
  unfold onKeydown.
  destruct (isInputFocused p); [now left|].
  destruct (ctrlKey e || metaKey e || altKey e); [now left|].
  destruct (pendingKey p) as [pk|]; [|apply single_key_trace].
  destruct (nonempty pk); [|apply single_key_trace].
  destruct (find_shortcut _) as [s|] eqn:Hf; [|apply single_key_trace].
  right. exists s. split; [|reflexivity].
  now apply find_shortcut_registered in Hf.
Qed.

Lemma no_combination_ends_in_question_mark (pk : string) :
  find_shortcut (pk +:+ " " +:+ "?") = None.
Proof.
  unfold find_shortcut, SHORTCUTS. cbn [List.find keys].
  assert (H1 : forall z : ascii, z <> "?"%char ->
            String.eqb (String "g" (String " " (String z EmptyString)))
              (pk +:+ " " +:+ "?") = false).
  { intros z Hz. apply String.eqb_neq. intros Heq.
    destruct pk as [|c1 [|c2 [|c3 pk]]];
      rewrite ?append_cons, ?append_empty_l in Heq;
      try discriminate.
    - apply Hz. congruence.
    - destruct pk; discriminate. }
  rewrite (H1 "h"%char) by discriminate.
  rewrite (H1 "e"%char) by discriminate.
  replace (String.eqb "?" (pk +:+ " " +:+ "?")) with false; [reflexivity|].
  symmetry. apply String.eqb_neq. intros Heq.
  destruct pk as [|c1 pk]; rewrite ?append_cons, ?append_empty_l in Heq;
    [discriminate|].
  injection Heq as _ Hq. now destruct pk.
Qed.

(** [X5] The question mark opens or closes the shortcuts dialog whatever
    is pending: past the two guards, its press runs the help entry and
    nothing else, flips the dialog when it exists and leaves the location
    alone. *)
Theorem question_mark_always_toggles (root : string) (e : KeyboardEvent)
    (p : Page) :
  qualifying e p = true ->
  toLowerCase (key e) = "?"%string ->
  let '(p', t) := onKeydown root e p in
  t = [PreventDefault; Invoke help_shortcut] /\
  dialogOpen p' = option_map negb (dialogOpen p) /\
  location_href p' = location_href p.
Proof.
  unfold qualifying. intros Hq Hkey.
  apply andb_true_iff in Hq. destruct Hq as [Hf Hm].
  apply negb_true_iff in Hf. apply negb_true_iff in Hm.
  unfold onKeydown. rewrite Hf, Hm, Hkey.
  assert (Hsingle : forall q,
            single_key root "?" q
            = (toggleShortcutsModal q, [PreventDefault; Invoke help_shortcut]))
    by reflexivity.
  assert (Htoggle : forall q,
            dialogOpen (toggleShortcutsModal q) = option_map negb (dialogOpen q) /\
            location_href (toggleShortcutsModal q) = location_href q).
  { intros q. unfold toggleShortcutsModal.
    destruct (dialogOpen q) as [o|] eqn:Hd; cbn; [|rewrite Hd]; now split. }
  destruct (pendingKey p) as [pk|].
  - destruct (nonempty pk).
    + rewrite no_combination_ends_in_question_mark, Hsingle.
      split; [reflexivity|].
      destruct (Htoggle (set_pendingKey None (clearTimeout (pendingTimer p) p)))
        as [-> ->].
      now destruct (pendingTimer p).
    + rewrite Hsingle. split; [reflexivity | apply Htoggle].
  - rewrite Hsingle. split; [reflexivity | apply Htoggle].
Qed.

Lemma question_mark_always_toggles_witness :
  let p := fst (run example_root [Keydown (press "g")]
                  (loaded 0 (Some page_body) (Some false) example_root)) in
  let '(p', t) := onKeydown example_root shift_question_mark p in
  t = [PreventDefault; Invoke help_shortcut] /\
  dialogOpen p' = option_map negb (dialogOpen p) /\
  location_href p' = location_href p.
Proof.
  cbv zeta.
  apply (question_mark_always_toggles example_root shift_question_mark
           (fst (run example_root [Keydown (press "g")]
                   (loaded 0 (Some page_body) (Some false) example_root))));
    reflexivity.
Defined.

Lemma single_key_at_rest (root k : string) (q : Page) :
  pendingKey q = None -> timeouts q = [] ->
  Idle (fst (single_key root k q)) \/
  (k = "g"%string /\ pending_anew k q (fst (single_key root k q))).
Proof.
  intros Hk Ht. unfold single_key.
  destruct (find_shortcut k) as [s|]; cbn [fst].
  - left. unfold Idle.
    destruct (run_action_matcher root (action s) q) as (-> & _ & ->). now split.
  - destruct (couldBePrefix k) eqn:Hpre; cbn [fst].
    + right. split; [now apply couldBePrefix_g|].
      unfold pending_anew. cbn. rewrite Ht. repeat split.
    + left. now split.
Qed.

(** [X6] A key press that passes the two guards never leaves an old
    pending token or an old timeout behind: after it the matcher is at
    rest, or the key is [g] and is pending anew, with one timeout, asked
    for by this call and due 800 ms from now. *)
Theorem keydown_ends_or_renews (root : string) (e : KeyboardEvent) (p : Page) :
  settled p ->
  qualifying e p = true ->
  let p' := fst (onKeydown root e p) in
  Idle p' \/
  (toLowerCase (key e) = "g"%string /\ pending_anew "g" p p').
Proof.
  intros Hs Hq p'. subst p'. unfold qualifying in Hq.
  apply andb_true_iff in Hq. destruct Hq as [Hf Hm].
  apply negb_true_iff in Hf. apply negb_true_iff in Hm.
  unfold onKeydown. rewrite Hf, Hm.
  set (k := toLowerCase (key e)).
  assert (Hrest : forall q, pendingKey q = None -> timeouts q = [] ->
            nextHandle q = nextHandle p -> clock q = clock p ->
            Idle (fst (single_key root k q)) \/
            (k = "g"%string /\ pending_anew "g" p (fst (single_key root k q)))).
  { intros q Hk Ht Hh Hc.
    destruct (single_key_at_rest root k q Hk Ht) as [H | [Hg H]]; [now left|].
    right. split; [exact Hg|]. destruct H as (H1 & H2 & H3).
    unfold pending_anew. rewrite H1, H2, H3, Hh, Hc, Hg. repeat split. }
  unfold settled in Hs. destruct (pendingKey p) as [pk|] eqn:Hpk.
  - destruct Hs as (Hopen & h & t & Ht & Hh).
    rewrite (opens_sequence_nonempty pk Hopen).
    assert (Hcleared : timeouts (clearTimeout (pendingTimer p) p) = []).
    { rewrite Hh. cbn. rewrite Ht. cbn. now rewrite Nat.eqb_refl. }
    destruct (find_shortcut _) as [s|]; cbn [fst].
    + left. unfold Idle.
      destruct (run_action_matcher root (action s)
                  (set_pendingKey None (clearTimeout (pendingTimer p) p)))
        as (-> & _ & ->).
      split; [reflexivity | exact Hcleared].
    + apply Hrest; [reflexivity | exact Hcleared | |];
        now destruct (pendingTimer p).
  - now apply Hrest.
Qed.

Lemma keydown_ends_or_renews_witness :
  let p := fst (run example_root [Keydown (press "g")]
                  (loaded 0 (Some page_body) (Some false) example_root)) in
  Idle (fst (onKeydown example_root (press "x") p)) \/
  (toLowerCase (key (press "x")) = "g"%string /\
   pending_anew "g" p (fst (onKeydown example_root (press "x") p))).
Proof.
  cbv zeta.
  apply (keydown_ends_or_renews example_root (press "x")
           (fst (run example_root [Keydown (press "g")]
                   (loaded 0 (Some page_body) (Some false) example_root)))).
  - split; [exact opens_sequence_g|].
    exists 1%nat, 800. split; reflexivity.
  - reflexivity.
Defined.

Lemma run_action_on_site (root url : string) (a : Action) (p : Page) :
  on_site root url p -> on_site root url (run_action root a p).
Proof.
  intros Hp. destruct a as [id|]; cbn.
  - unfold navigateTo.
    destruct (List.find _ NAV_ITEMS) as [item|] eqn:Hfind; [|exact Hp].
    right. exists item. split; [|reflexivity].
    now apply List.find_some in Hfind.
  - unfold toggleShortcutsModal. now destruct (dialogOpen p).
Qed.

Lemma single_key_on_site (root url k : string) (p : Page) :
  on_site root url p -> on_site root url (fst (single_key root k p)).
Proof.
  intros Hp. unfold single_key.
  destruct (find_shortcut k) as [s|]; cbn [fst].
  - now apply run_action_on_site.
  - now destruct (couldBePrefix k).
Qed.

Lemma onKeydown_on_site (root url : string) (e : KeyboardEvent) (p : Page) :
  on_site root url p -> on_site root url (fst (onKeydown root e p)).
Proof.
  intros Hp. unfold onKeydown.
  destruct (isInputFocused p); [exact Hp|].
  destruct (ctrlKey e || metaKey e || altKey e); [exact Hp|].
  assert (Hcleared : on_site root url
            (set_pendingKey None (clearTimeout (pendingTimer p) p)))
    by now destruct (pendingTimer p).
  destruct (pendingKey p) as [pk|]; [|now apply single_key_on_site].
  destruct (nonempty pk); [|now apply single_key_on_site].
  destruct (find_shortcut _) as [s|]; [|now apply single_key_on_site].
  now apply run_action_on_site.
Qed.

Lemma run_on_site (root url : string) (inputs : list Input) (p : Page) :
  on_site root url p -> on_site root url (fst (run root inputs p)).
Proof.
  revert p. induction inputs as [|i rest IH]; intros p Hp; cbn; [exact Hp|].
  assert (H1 : on_site root url (fst (step root i p))).
  { destruct i as [e|d|el]; cbn.
    - now apply onKeydown_on_site.
    - exact Hp.
    - exact Hp. }
  destruct (step root i p) as [p1 t1]. cbn in H1.
  specialize (IH p1 H1). now destruct (run root rest p1) as [p2 t2].
Qed.

Lemma startsWith_append (s rest : string) : startsWith (s +:+ rest) s = true.
Proof.
  induction s as [|c s IH].
  - rewrite append_empty_l. now destruct rest.
  - rewrite append_cons. cbn. now rewrite Ascii.eqb_refl, IH.
Qed.

(** [X7] Whatever keys are pressed, the script sends the page nowhere but
    to the items of the navigation: after any history the location is
    the one the page was loaded at, or the resolved [href] of an item of
    [NAV_ITEMS], which starts with the site root. *)
Theorem location_stays_on_site (root : string) (inputs : list Input)
    (now : N) (focus : option Element) (dialog : option bool) (url : string) :
  let p := fst (run root inputs (loaded now focus dialog url)) in
  location_href p = url \/
  exists item, In item NAV_ITEMS /\
               location_href p = resolveHref root (nav_href item) /\
               startsWith (location_href p) root = true.
Proof.
  intros p.
  destruct (run_on_site root url inputs (loaded now focus dialog url))
    as [H | (item & Hin & H)]; [now left | now left |].
  right. exists item. split; [exact Hin|]. split; [exact H|].
  fold p in H. rewrite H. unfold resolveHref.
  destruct (String.eqb (nav_href item) "/").
  - rewrite <- (append_empty_r root) at 1. apply startsWith_append.
  - apply startsWith_append.
Qed.

(** * The shortcuts dialog *)

Lemma kbd_shows (k : string) :
  shown_text (el "kbd" [("className", "shell-kbd"); ("textContent", k)]%string [])
  = k.
Proof.
  unfold el. cbn. destruct k as [|c k]; cbn; [reflexivity|].
  now rewrite append_cons, append_empty_r.
Qed.

Lemma kbd_texts_tokens (tokens : list string) :
  kbd_texts
    (List.flat_map
       (fun k => [el "kbd" [("className", "shell-kbd"); ("textContent", k)]%string [];
                  TextNode " "])
       tokens)
  = tokens.
Proof.
  induction tokens as [|k rest IH]; [reflexivity|].
  cbn [List.flat_map List.app].
  change (kbd_texts (?a :: TextNode ?t :: ?l))
    with (shown_text a :: kbd_texts l).
  now rewrite kbd_shows, IH.
Qed.

Lemma shown_texts_tokens (cur s : string) :
  shown_texts
    (List.flat_map
       (fun k => [el "kbd" [("className", "shell-kbd"); ("textContent", k)]%string [];
                  TextNode " "])
       (split_space_aux cur s))
  = cur +:+ s +:+ " ".
Proof.
  revert cur. induction s as [|c s IH]; intros cur.
  - cbn [split_space_aux List.flat_map List.app]. unfold shown_texts.
    cbn [List.fold_right]. rewrite kbd_shows. cbn [shown_text].
    now rewrite append_empty_l.
  - cbn [split_space_aux]. destruct (Ascii.eqb_spec c " ") as [-> | Hc].
    + cbn [List.flat_map List.app]. unfold shown_texts in *.
      cbn [List.fold_right]. rewrite kbd_shows. cbn [shown_text].
      rewrite IH. now rewrite append_empty_l, !append_cons, append_empty_l.
    + rewrite IH, append_assoc. now f_equal.
Qed.

Lemma shortcut_row_children (s : Shortcut) :
  shortcut_row s
  = ElementNode "li" []
      (el "span" [("textContent", label s)]%string [] :: shortcut_keys s).
Proof. reflexivity. Qed.

Lemma span_shows (t : string) :
  shown_text (el "span" [("textContent", t)]%string []) = t.
Proof.
  unfold el. cbn. destruct t as [|c t]; cbn; [reflexivity|].
  now rewrite append_cons, append_empty_r.
Qed.

(** [X8] The row the dialog gives an entry shows the entry as the
    listener reads it: the row reads as the label and then the keys, each
    key with a space after it, and its [kbd] elements hold the tokens of
    [keys], in order.  This holds of every label and every [keys]. *)
Theorem dialog_row_shows_keys (s : Shortcut) :
  kbd_texts (node_children (shortcut_row s)) = sequence s /\
  shown_text (shortcut_row s) = label s +:+ keys s +:+ " ".
Proof.
  rewrite shortcut_row_children. cbn [node_children]. split.
  - change (kbd_texts (el "span" ?a ?c :: ?l)) with (kbd_texts l).
    apply kbd_texts_tokens.
  - cbn [shown_text List.fold_right].
    change (List.fold_right (fun c rest => shown_text c +:+ rest) EmptyString
              (shortcut_keys s))
      with (shown_texts (shortcut_keys s)).
    rewrite span_shows. unfold shortcut_keys, split_space.
    rewrite shown_texts_tokens. now rewrite append_empty_l.
Qed.

(** [X9] The dialog tells the truth: pressing the keys it lists for a
    registered entry, one after the other from rest and with the focus in
    no text control, prevents one default and runs that entry, and the
    matcher is at rest again. *)
Theorem listed_keys_run_entry (root : string) (s : Shortcut) (p : Page) :
  In s SHORTCUTS ->
  Idle p ->
  isInputFocused p = false ->
  let '(p', t) := run root (presses (kbd_texts (shortcut_keys s))) p in
  t = [PreventDefault; Invoke s] /\ Idle p'.
Proof.
  intros Hin [Hk Ht] Hfocus.
  assert (Hg : onKeydown root (press "g") p
               = (set_pendingTimer (Some (nextHandle p))
                    (snd (setTimeout 800 (set_pendingKey (Some "g"%string) p))), [])).
  { unfold onKeydown. now rewrite Hfocus, Hk. }
  assert (Htwo : forall k, In k ["h"; "e"]%string ->
            forall s', find_shortcut ("g" +:+ " " +:+ k) = Some s' ->
            let '(p', t) := run root [Keydown (press "g"); Keydown (press k)] p in
            t = [PreventDefault; Invoke s'] /\ Idle p').
  { intros k Hin' s' Hfind. cbn [run step]. rewrite Hg.
    set (pg := set_pendingTimer _ _).
    assert (Hfocus' : isInputFocused pg = false) by exact Hfocus.
    unfold onKeydown. rewrite Hfocus'.
    replace (toLowerCase (key (press k))) with k
      by (destruct Hin' as [<- | [<- | []]]; reflexivity).
    cbn [press ctrlKey metaKey altKey orb pendingKey pg set_pendingTimer
         setTimeout snd set_pendingKey nonempty].
    rewrite Hfind. cbn [List.app]. split; [reflexivity|].
    unfold Idle.
    destruct (run_action_matcher root (action s')
                (set_pendingKey None (clearTimeout (pendingTimer pg) pg)))
      as (-> & _ & ->).
    split; [reflexivity|]. cbn. rewrite Ht. cbn. now rewrite Nat.eqb_refl. }
  unfold shortcut_keys. rewrite kbd_texts_tokens.
  cbn in Hin. destruct Hin as [<- | [<- | [<- | []]]].
  - apply (Htwo "h"%string); [now left | reflexivity].
  - apply (Htwo "e"%string); [right; now left | reflexivity].
  - change (presses (split_space _)) with [Keydown (press "?")].
    cbn [run step]. unfold onKeydown. rewrite Hfocus, Hk. cbn.
    split; [reflexivity|]. unfold Idle.
    destruct (run_action_matcher root ToggleShortcutsModal p) as (H1 & _ & H3).
    change (pendingKey (run_action root ToggleShortcutsModal p) = None /\
            timeouts (run_action root ToggleShortcutsModal p) = []).
    now rewrite H1, H3.
Qed.

Lemma listed_keys_run_entry_witness :
  let '(p', t) :=
    run example_root (presses (kbd_texts (shortcut_keys home_shortcut)))
      (loaded 0 (Some page_body) (Some false) example_root) in
  t = [PreventDefault; Invoke home_shortcut] /\ Idle p'.
Proof.
  apply (listed_keys_run_entry example_root home_shortcut
           (loaded 0 (Some page_body) (Some false) example_root)).
  - left. reflexivity.
  - split; reflexivity.
  - reflexivity.
Defined.

(** * The preference controls *)

Lemma loadPrefs_unreadable (s : Storage) :
  unreadable s -> loadPrefs s = Return empty_record.
Proof.
  unfold unreadable, loadPrefs. destruct s as [|items|items]; cbn;
    [reflexivity| |];
    (destruct (items !! PREFS_KEY) as [text|]; cbn; [|reflexivity];
     now intros [_ ->]).
Qed.

Lemma contains_classList_add (token : string) (r : RootElement) :
  contains (classList (classList_add token r)) token = true.
Proof.
  unfold classList_add. cbn [classList].
  destruct (contains (classList r) token) eqn:Hin; [exact Hin|].
  rewrite contains_app, Hin. cbn. now rewrite String.eqb_refl.
Qed.

Lemma contains_filter_other (token t : string) (l : list string) :
  contains (List.filter (fun x => negb (String.eqb token x)) l) t
  = negb (String.eqb token t) && contains l t.
Proof.
  unfold contains.
  induction l as [|x l IH]; cbn; [now rewrite andb_false_r|].
  destruct (String.eqb_spec token x) as [<- | Hx]; cbn.
  - rewrite IH, (String.eqb_sym t token).
    now destruct (String.eqb token t).
  - rewrite IH. destruct (String.eqb_spec t x) as [-> | Ht]; cbn; [|reflexivity].
    destruct (String.eqb_spec token x); [contradiction | reflexivity].
Qed.

Lemma contains_classList_remove (token : string) (r : RootElement) :
  contains (classList (classList_remove token r)) token = false.
Proof.
  unfold classList_remove. cbn [classList].
  now rewrite contains_filter_other, String.eqb_refl.
Qed.

Lemma filter_app_other (token : string) (l : list string) :
  List.filter (fun x => negb (String.eqb token x)) (l ++ [token])
  = List.filter (fun x => negb (String.eqb token x)) l.
Proof.
  rewrite List.filter_app. cbn. rewrite String.eqb_refl. cbn.
  apply List.app_nil_r.
Qed.



Section Chosen.

Variable Number_toString : JSON.Number -> string.


Lemma contrast_of_attributes (prefs : JSON.Value) (r : RootElement) :
  attributes (contrast_of prefs r) = attributes r.
Proof. unfold contrast_of. now destruct (truthy_prop _). Qed.

Lemma contrast_of_contains (prefs : JSON.Value) (r : RootElement) :
  contains (classList (contrast_of prefs r)) "high-contrast"
  = truthy_prop (prop prefs "highContrast").
Proof.
  unfold contrast_of. destruct (truthy_prop (prop prefs "highContrast")).
  - apply contains_classList_add.
  - apply contains_classList_remove.
Qed.

Lemma contrast_of_others (prefs : JSON.Value) (r : RootElement) :
  List.filter (fun t => negb (String.eqb "high-contrast" t))
    (classList (contrast_of prefs r))
  = List.filter (fun t => negb (String.eqb "high-contrast" t)) (classList r).
Proof.
  unfold contrast_of. destruct (truthy_prop (prop prefs "highContrast"));
    cbn [classList classList_add classList_remove].
  - destruct (contains (classList r) "high-contrast");
      [reflexivity | apply filter_app_other].
  - apply filter_twice.
Qed.





(** [X13] Whether [applyPrefs] returns depends on the storage alone, and
    so does what it leaves of the two markers when it returns: whatever
    the scale attribute and the classes of the root were before, they are
    the same after.  When it throws, it throws the same for every root
    and leaves the root as it was. *)
Theorem applyPrefs_resets_markers (s : Storage) (r r' : RootElement) :
  match applyPrefs_on Number_toString (s, r),
        applyPrefs_on Number_toString (s, r') with
  | (st, Return _), (st', Return _) =>
      attributes (snd st) !! "data-text-scale"%string
      = attributes (snd st') !! "data-text-scale"%string /\
      contains (classList (snd st)) "high-contrast"
      = contains (classList (snd st')) "high-contrast"
  | (st, Throw e), (st', Throw e') => e = e' /\ st = (s, r) /\ st' = (s, r')
  | _, _ => False
  end.
Proof.
  destruct (loadPrefs_returns s) as [prefs Hload].
  rewrite (applyPrefs_on_loaded Number_toString s r prefs Hload),
    (applyPrefs_on_loaded Number_toString s r' prefs Hload).
  destruct (truthy_prop (prop prefs "textScale")
            && is_not_default (prop prefs "textScale")).
  - destruct (text_of_prop Number_toString (prop prefs "textScale")) as [text|e];
      [|auto].
    cbn [snd]. rewrite !contrast_of_attributes, !contrast_of_contains. cbn.
    now rewrite !lookup_insert_eq.
  - cbn [snd]. rewrite !contrast_of_attributes, !contrast_of_contains. cbn.
    now rewrite !lookup_delete_eq.
Qed.

(** [X14] [applyPrefs] touches the scale attribute and the contrast class
    and nothing else, whether it returns or throws: the storage is as it
    was, every other attribute of the root is as it was, and so are the
    other classes, in their order. *)
Theorem applyPrefs_leaves_the_rest (s : Storage) (r : RootElement) :
  let st := fst (applyPrefs_on Number_toString (s, r)) in
  fst st = s /\
  (forall name, name <> "data-text-scale"%string ->
                attributes (snd st) !! name = attributes r !! name) /\
  List.filter (fun t => negb (String.eqb "high-contrast" t)) (classList (snd st))
  = List.filter (fun t => negb (String.eqb "high-contrast" t)) (classList r).
Proof.
  destruct (loadPrefs_returns s) as [prefs Hload].
  rewrite (applyPrefs_on_loaded Number_toString s r prefs Hload).
  destruct (truthy_prop (prop prefs "textScale")
            && is_not_default (prop prefs "textScale")).
  - destruct (text_of_prop Number_toString (prop prefs "textScale")) as [text|e];
      cbn [fst snd]; [|auto].
    rewrite contrast_of_attributes, contrast_of_others. cbn.
    repeat split. intros name Hname. now rewrite lookup_insert_ne by congruence.
  - cbn [fst snd]. rewrite contrast_of_attributes, contrast_of_others. cbn.
    repeat split. intros name Hname. now rewrite lookup_delete_ne by congruence.
Qed.

(** [X15] A visitor whose storage is denied, holds no record or holds a
    malformed one gets the defaults: the select shows [default], the
    checkbox is clear, and the root has neither the scale attribute nor
    the contrast class, whatever it had. *)
Theorem unreadable_storage_gives_defaults (s : Storage) (r : RootElement) :
  unreadable s ->
  setupPrefs Number_toString s
  = Return {| scale_shown := "default"; contrast_checked := false |} /\
  exists r1,
    applyPrefs Number_toString s r = Return r1 /\
    attributes r1 !! "data-text-scale"%string = None /\
    contains (classList r1) "high-contrast" = false.
Proof.
  intros Hs. pose proof (loadPrefs_unreadable s Hs) as Hload. split.
  - unfold setupPrefs. now rewrite Hload.
  - unfold applyPrefs.
    rewrite (applyPrefs_on_loaded Number_toString s r _ Hload). cbn.
    eexists. split; [reflexivity|].
    split; [apply lookup_delete_eq | apply contains_classList_remove].
Qed.

(** [X16] The change listeners catch nothing.  When the stored text is
    JSON for a truthy number, string or boolean, [loadPrefs] hands that
    value on, and setting a property on it throws a [TypeError], in
    either listener; when the storage is denied, saving throws a
    [SecurityError].  Either way the storage and the root are as they
    were. *)
Theorem change_listeners_throw (items : gmap string string) (text : string)
    (v : JSON.Value) (value : string) (checked : bool) (r : RootElement) :
  items !! PREFS_KEY = Some text ->
  JSON.parse text = Return v ->
  primitive v = true ->
  JSON.truthy v = true ->
  (scale_listener Number_toString value (Items items, r)
   = ((Items items, r), Throw TypeError) /\
   contrast_listener Number_toString checked (Items items, r)
   = ((Items items, r), Throw TypeError)) /\
  (scale_listener Number_toString value (Denied, r)
   = ((Denied, r), Throw SecurityError) /\
   contrast_listener Number_toString checked (Denied, r)
   = ((Denied, r), Throw SecurityError)).
Proof.
  intros Hitem Hparse Hprim Htruthy. split; [|split; reflexivity].
  assert (Hload : loadPrefs (Items items) = Return v).
  { unfold loadPrefs, getItem, bind. rewrite Hitem. unfold text_of_item.
    now rewrite Hparse, Htruthy. }
  unfold scale_listener, contrast_listener, and_then, reading, computing.
  cbn [fst snd]. rewrite Hload.
  destruct v; try discriminate; now split.
Qed.

(** [X17] A stored text size that is none of the options of the select
    is applied and not shown: the root gets it as its [data-text-scale],
    and the select, which has no option of that value, has no option
    selected and reads as the empty string. *)
Theorem unknown_scale_applied_not_shown (props : list (string * JSON.Value))
    (items : gmap string string) (v : string) (r : RootElement) :
  plain_record props = true ->
  JSON.get props "textScale" = Some (JSON.Str v) ->
  nonempty v = true ->
  contains SCALE_OPTIONS v = false ->
  (exists c, setupPrefs Number_toString (saved Number_toString props items) = Return c /\
             scale_shown c = EmptyString) /\
  exists r1,
    applyPrefs Number_toString (saved Number_toString props items) r = Return r1 /\
    attributes r1 !! "data-text-scale"%string = Some v.
Proof.
  intros Hplain Hget Hv Hoption.
  pose proof (loadPrefs_saved Number_toString props items Hplain) as Hload. split.
  - unfold setupPrefs. rewrite Hload. cbn [bind prop]. rewrite Hget.
    cbn [truthy_prop JSON.truthy text_of_prop JSON.to_string]. rewrite Hv.
    cbn [bind]. eexists. split; [reflexivity|].
    cbn [scale_shown]. unfold select_value. now rewrite Hoption.
  - unfold applyPrefs.
    rewrite (applyPrefs_on_loaded Number_toString _ r _ Hload). cbn [prop].
    rewrite Hget. cbn [truthy_prop JSON.truthy is_not_default text_of_prop
                       JSON.to_string]. rewrite Hv.
    unfold contains, SCALE_OPTIONS in Hoption. cbn [List.existsb] in Hoption.
    apply orb_false_iff in Hoption. destruct Hoption as [-> _].
    cbn [andb negb returned bind snd]. eexists. split; [reflexivity|].
    rewrite contrast_of_attributes. cbn. apply lookup_insert_eq.
Qed.


End Chosen.



Lemma unreadable_storage_gives_defaults_witness :
  setupPrefs (fun _ => "0"%string) (Items {[ PREFS_KEY := "{textScale:"%string ]})
  = Return {| scale_shown := "default"; contrast_checked := false |} /\
  exists r1,
    applyPrefs (fun _ => "0"%string) (Items {[ PREFS_KEY := "{textScale:"%string ]})
      {| attributes := {[ "data-text-scale"%string := "large"%string ]};
         classList := ["high-contrast"%string] |}
    = Return r1 /\
    attributes r1 !! "data-text-scale"%string = None /\
    contains (classList r1) "high-contrast" = false.
Proof.
  apply (unreadable_storage_gives_defaults (fun _ => "0"%string)
           (Items {[ PREFS_KEY := "{textScale:"%string ]})
           {| attributes := {[ "data-text-scale"%string := "large"%string ]};
              classList := ["high-contrast"%string] |}).
  split; reflexivity.
Defined.

Lemma change_listeners_throw_witness :
  (scale_listener (fun _ => "42"%string) "large"
     (Items {[ PREFS_KEY := "42"%string ]}, {| attributes := ∅; classList := [] |})
   = ((Items {[ PREFS_KEY := "42"%string ]}, {| attributes := ∅; classList := [] |}),
      Throw TypeError) /\
   contrast_listener (fun _ => "42"%string) true
     (Items {[ PREFS_KEY := "42"%string ]}, {| attributes := ∅; classList := [] |})
   = ((Items {[ PREFS_KEY := "42"%string ]}, {| attributes := ∅; classList := [] |}),
      Throw TypeError)) /\
  (scale_listener (fun _ => "42"%string) "large"
     (Denied, {| attributes := ∅; classList := [] |})
   = ((Denied, {| attributes := ∅; classList := [] |}), Throw SecurityError) /\
   contrast_listener (fun _ => "42"%string) true
     (Denied, {| attributes := ∅; classList := [] |})
   = ((Denied, {| attributes := ∅; classList := [] |}), Throw SecurityError)).
Proof.
  apply (change_listeners_throw (fun _ => "42"%string)
           {[ PREFS_KEY := "42"%string ]} "42"
           (JSON.Num {| JSON.negative := false; JSON.mantissa := 42;
                        JSON.exponent := 0 |})
           "large" true {| attributes := ∅; classList := [] |});
    reflexivity.
Defined.

Lemma unknown_scale_applied_not_shown_witness :
  (exists c, setupPrefs (fun _ => "0"%string)
               (saved (fun _ => "0"%string) [("textScale"%string, JSON.Str "huge")] ∅)
             = Return c /\
             scale_shown c = EmptyString) /\
  exists r1,
    applyPrefs (fun _ => "0"%string)
      (saved (fun _ => "0"%string) [("textScale"%string, JSON.Str "huge")] ∅)
      {| attributes := ∅; classList := [] |}
    = Return r1 /\
    attributes r1 !! "data-text-scale"%string = Some "huge"%string.
Proof.
  apply (unknown_scale_applied_not_shown (fun _ => "0"%string)
           [("textScale"%string, JSON.Str "huge")] ∅ "huge"
           {| attributes := ∅; classList := [] |}); reflexivity.
Defined.


(** The contrast listener over that record stores the record with
    [highContrast] set, and then throws in [applyPrefs]: the storage is
    written, the root is not. *)
Example contrast_listener_stores_then_throws :
  contrast_listener (fun _ => "1"%string) true
    (Items {[ PREFS_KEY := textless_scale ]},
     {| attributes := ∅; classList := [] |})
  = ((Items {[ PREFS_KEY :=
                 JSON.stringify (fun _ => "1"%string)
                   (JSON.Obj [("textScale"%string,
                               JSON.Obj [("toString"%string,
                                          JSON.Num {| JSON.negative := false;
                                                      JSON.mantissa := 1;
                                                      JSON.exponent := 0 |})]);
                              ("highContrast"%string, JSON.Bool true)]) ]},
      {| attributes := ∅; classList := [] |}),
     Throw TypeError).
Proof. vm_compute. reflexivity. Qed.

(** * The preferences panel *)

Lemma panel_step_in_step (i : PanelInput) (pn : Panel) :
  in_step pn -> in_step (panel_step i pn).
Proof.
  intros Hpn. destruct i as [target | e]; cbn.
  - destruct target; cbn; try reflexivity;
      unfold onDocumentClick; destruct (panel_hidden pn) eqn:Hh; cbn;
      try reflexivity; exact Hpn.
  - unfold onPanelKeydown.
    destruct (String.eqb (key e) "Escape" && negb (panel_hidden pn));
      [reflexivity | exact Hpn].
Qed.

Lemma panel_run_in_step (inputs : list PanelInput) (pn : Panel) :
  in_step pn -> in_step (panel_run inputs pn).
Proof.
  revert pn. induction inputs as [|i rest IH]; intros pn Hpn; [exact Hpn|].
  apply IH, panel_step_in_step, Hpn.
Qed.

(** [X18] Through any clicks and key presses the button's [aria-expanded]
    says what the panel does: it reads [true] exactly while the panel is
    shown. *)
Theorem aria_expanded_tracks_panel (inputs : list PanelInput) :
  let pn := panel_run inputs Panel_built in
  aria_expanded pn = string_of_bool (negb (panel_hidden pn)) /\
  (aria_expanded pn = "true"%string <-> panel_hidden pn = false).
Proof.
  intros pn.
  assert (H : in_step pn) by (apply panel_run_in_step; reflexivity).
  split; [exact H|]. rewrite H. destruct (panel_hidden pn); cbn; split;
    intros; congruence.
Qed.

(** [X19] Nothing but a click on the button opens the panel: with no
    such click among them, clicks elsewhere and key presses leave the
    panel hidden and the button as built. *)
Theorem panel_opens_by_button_only (inputs : list PanelInput) :
  no_button_click inputs = true ->
  panel_run inputs Panel_built = Panel_built.
Proof.
  induction inputs as [|i rest IH]; [reflexivity|].
  destruct i as [[| |] | e]; cbn [no_button_click]; try discriminate; intros H.
  - exact (IH H).
  - exact (IH H).
  - unfold panel_run. cbn [List.fold_left panel_step].
    replace (fst (onPanelKeydown e Panel_built)) with Panel_built; [exact (IH H)|].
    unfold onPanelKeydown. cbn. now rewrite andb_false_r.
Qed.

Lemma panel_opens_by_button_only_witness :
  panel_run [Click Elsewhere; PanelKey (press "Escape"); Click InPanel] Panel_built
  = Panel_built.
Proof.
  apply (panel_opens_by_button_only
           [Click Elsewhere; PanelKey (press "Escape"); Click InPanel]).
  reflexivity.
Defined.

(** [X20] The button toggles: whatever happened before, two clicks on it
    leave the panel and the button as they were. *)
Theorem button_click_twice (inputs : list PanelInput) :
  let pn := panel_run inputs Panel_built in
  click OnButton (click OnButton pn) = pn.
Proof.
  intros pn.
  assert (H : in_step pn) by (apply panel_run_in_step; reflexivity).
  unfold in_step in H. destruct pn as [hidden expanded]. cbn in *.
  unfold onButtonClick. cbn. rewrite !negb_involutive. now rewrite H.
Qed.

(** * Building the header *)

Lemma nav_link_element (root current : string) (item : NavItem) :
  exists attrs children,
    nav_link root current item = ElementNode "a" attrs children.
Proof.
  unfold nav_link, el. cbn.
  destruct (String.eqb (nav_id item) current); cbn; now eexists _, _.
Qed.

Lemma header_nav_children (root : string) (current_attr : option string) :
  node_children (header_nav root current_attr)
  = List.map
      (nav_link root
         match current_attr with
         | Some c => if nonempty c then c else EmptyString
         | None => EmptyString
         end)
      NAV_ITEMS.
Proof.
  unfold header_nav.
  set (current := match current_attr with
                  | Some c => if nonempty c then c else EmptyString
                  | None => EmptyString
                  end).
  cbn [NAV_ITEMS List.fold_left List.map].
  destruct (nav_link_element root current
              {| nav_id := "home"; nav_label := "Home"; nav_href := "/" |})
    as (attrs1 & children1 & ->).
  destruct (nav_link_element root current
              {| nav_id := "example-tool"; nav_label := "Example Tool";
                 nav_href := "/example-tool/" |})
    as (attrs2 & children2 & ->).
  reflexivity.
Qed.

Lemma nav_link_attributes (root current : string) (item : NavItem) :
  node_getAttribute "href" (nav_link root current item)
  = Some (resolveHref root (nav_href item)) /\
  shown_text (nav_link root current item) = nav_label item /\
  node_getAttribute "aria-current" (nav_link root current item)
  = if String.eqb (nav_id item) current then Some "page"%string else None.
Proof.
  unfold nav_link, el. cbn.
  destruct (String.eqb (nav_id item) current); cbn;
    (split; [reflexivity|]); (split; [|reflexivity]);
    destruct (nav_label item); cbn; try reflexivity;
    now rewrite append_cons, append_empty_r.
Qed.

(** [X22] The navigation of the header has one link for every item of
    [NAV_ITEMS], in their order, with the item's resolved [href] and its
    label; a link is marked [aria-current] exactly when its item's [id] is
    the header's [current] attribute, so at most one link is marked, and
    none when the attribute is missing or empty. *)
Theorem header_nav_marks_current (root : string) (current_attr : option string) :
  let links := node_children (header_nav root current_attr) in
  List.map (node_getAttribute "href") links
  = List.map (fun item => Some (resolveHref root (nav_href item))) NAV_ITEMS /\
  List.map shown_text links = List.map nav_label NAV_ITEMS /\
  List.map (node_getAttribute "aria-current") links
  = List.map (fun item => if decide (current_attr = Some (nav_id item))
                          then Some "page"%string else None) NAV_ITEMS /\
  (length (current_links (header_nav root current_attr)) <= 1)%nat.
Proof.
  intros links. subst links. rewrite header_nav_children.
  set (current := match current_attr with
                  | Some c => if nonempty c then c else EmptyString
                  | None => EmptyString
                  end).
  assert (Hcurrent : forall item, In item NAV_ITEMS ->
            String.eqb (nav_id item) current
            = if decide (current_attr = Some (nav_id item)) then true else false).
  { intros item Hin. subst current.
    destruct (decide (current_attr = Some (nav_id item))) as [-> | Hne].
    - cbn in Hin. destruct Hin as [<- | [<- | []]]; reflexivity.
    - apply String.eqb_neq. intros Heq.
      destruct current_attr as [c|].
      + destruct c as [|x c]; cbn in Heq.
        * cbn in Hin. destruct Hin as [<- | [<- | []]]; discriminate.
        * apply Hne. now rewrite Heq.
      + cbn in Hin. destruct Hin as [<- | [<- | []]]; discriminate. }
  split; [|split; [|split]].
  - rewrite List.map_map. apply List.map_ext. intros item.
    apply nav_link_attributes.
  - rewrite List.map_map. apply List.map_ext. intros item.
    apply nav_link_attributes.
  - rewrite List.map_map. apply List.map_ext_in. intros item Hin.
    destruct (nav_link_attributes root current item) as (_ & _ & ->).
    rewrite (Hcurrent item Hin). now destruct (decide _).
  - unfold current_links. rewrite header_nav_children.
    fold current. cbn [NAV_ITEMS List.map List.filter].
    destruct (nav_link_attributes root current
                {| nav_id := "home"; nav_label := "Home"; nav_href := "/" |})
      as (_ & _ & ->).
    destruct (nav_link_attributes root current
                {| nav_id := "example-tool"; nav_label := "Example Tool";
                   nav_href := "/example-tool/" |})
      as (_ & _ & ->).
    cbn [nav_id].
    clear Hcurrent.
    destruct (String.eqb "home" current) eqn:Hhome;
      destruct (String.eqb "example-tool" current) eqn:Hexample; cbn;
      try lia.
    apply String.eqb_eq in Hhome, Hexample. congruence.
Qed.

(** * Branding *)

Section Branded.

Variable Number_toString : JSON.Number -> string.

(** [X23] The branding is optional in earnest.  [loadBranding] returns
    whatever the fetch came to; and it sets no style property and no logo
    text when the fetch failed, when the response is not [ok], when the
    body is malformed and when the body is JSON for something other than
    an object. *)
Theorem loadBranding_is_optional (fetched : Fetched) (has_logo_text : bool) :
  (exists calls, loadBranding Number_toString fetched has_logo_text = Return calls) /\
  (unbranded fetched ->
   loadBranding Number_toString fetched has_logo_text = Return []).
Proof.
  unfold loadBranding, caught. split.
  - destruct (branding_body Number_toString fetched has_logo_text [])
      as [calls [[]|e]]; now eexists.
  - unfold unbranded, branding_body. destruct fetched as [|ok body];
      [reflexivity|].
    intros [-> | [[_ Hparse] | (v & Hparse & Hv)]]; [reflexivity | |].
    + destruct ok; [|reflexivity].
      unfold and_then at 1, computing. cbn [negb]. now rewrite Hparse.
    + destruct ok; [|reflexivity].
      unfold and_then, computing. cbn [negb]. rewrite Hparse.
      destruct v; try contradiction; reflexivity.
Qed.

End Branded.
